(** * django-multires: the image processing pipeline

    A shallow embedding of [multires/processors.py] (the flip, crop,
    resize, rotate and rotate-crop processors and the anchor crop helper)
    and of [multires/engines.py] ([DefaultEngine.process] and
    [DefaultEngine.save]).

    Modelling conventions:
    - Python exceptions are the constructors of [py_exc]; a computation
      that may raise returns a [result].
    - Python floats that only go through [+ - * /] are modelled as exact
      rationals [Q]; [int()] truncates toward zero ([py_int]) and
      [math.ceil] is [Qceiling].  The rotate-crop sizing strategies call
      [math.sin] and [math.cos] and are modelled over the reals [R].
    - An image is a record with its colour mode, its size and its rows of
      pixels.  The parts of PIL whose pixel output is not specified by this
      repository (antialiased resampling, bicubic rotation, colour
      conversion, compositing) are the fields of the [Pil] class; every
      theorem about them holds for every instance. *)

From Stdlib Require Import ZArith QArith Qround Qfield Lia List String Ascii Bool.
From Stdlib Require Import Reals.
Import ListNotations.

Open Scope string_scope.
Open Scope Z_scope.

(** ** Python exceptions and the result monad *)

Inductive py_exc :=
| ZeroDivisionError
| ValueError
| AttributeError
| IndexError
| KeyError
| TypeError.

Inductive result (A : Type) :=
| Ok (a : A)
| Err (e : py_exc).
Arguments Ok {A} a.
Arguments Err {A} e.

Definition bind {A B} (m : result A) (k : A -> result B) : result B :=
  match m with
  | Ok a => k a
  | Err e => Err e
  end.

Notation "x <- m ;; k" := (bind m (fun x => k))
  (at level 61, m at next level, right associativity).

(** ** Python numeric helpers *)

(** [int(x)] on a float: truncation toward zero. *)
Definition py_int (x : Q) : Z :=
  if Qle_bool 0 x then Qfloor x else - Qfloor (- x).

(** [int(math.ceil(x))]. *)
Definition py_ceil (x : Q) : Z := Qceiling x.

Definition Qltb (x y : Q) : bool := negb (Qle_bool y x).

(** Python's [max(x, 1)]: the first argument unless the second is larger. *)
Definition py_max1 (x : Q) : Q := if Qltb x 1 then 1 else x.

(** Truthiness of a string, of an optional number and of an optional list. *)
Definition str_truthy (s : string) : bool := negb (String.eqb s "").

Definition opt_Z_truthy (o : option Z) : bool :=
  match o with Some z => negb (z =? 0) | None => false end.

Definition opt_list_truthy {A} (o : option (list A)) : bool :=
  match o with Some (_ :: _) => true | _ => false end.

Definition str_in (s : string) (l : list string) : bool :=
  existsb (String.eqb s) l.

(** [str(n)] for an integer [n]. *)
Fixpoint digits (fuel : nat) (n : Z) (acc : string) : string :=
  match fuel with
  | O => acc
  | S f =>
      let acc' := String (ascii_of_nat (48 + Z.to_nat (n mod 10))) acc in
      if n <? 10 then acc' else digits f (n / 10) acc'
  end.

Definition py_str_int (z : Z) : string :=
  let fuel := S (Z.to_nat (Z.log2 (Z.abs z))) in
  if z <? 0 then "-" ++ digits fuel (- z) "" else digits fuel z "".

(** ** Images *)

Definition pixel := list Z.

Record image := mkImage {
  mode : string;
  img_width : Z;
  img_height : Z;
  pixels : list (list pixel)
}.

Definition size (im : image) : Z * Z := (img_width im, img_height im).

(** Number of bands of a colour mode; PIL fills areas outside an image
    with the zero pixel of its mode. *)
Definition bands (m : string) : nat :=
  if str_in m ["RGB"; "YCbCr"; "LAB"; "HSV"] then 3
  else if str_in m ["RGBA"; "CMYK"; "RGBX"; "RGBa"] then 4
  else if str_in m ["LA"; "La"; "PA"] then 2
  else 1.

Definition zero_pixel (m : string) : pixel := repeat 0 (bands m).

Definition get_pixel (im : image) (x y : Z) : pixel :=
  if (0 <=? x) && (x <? img_width im) && (0 <=? y) && (y <? img_height im)
  then match nth_error (pixels im) (Z.to_nat y) with
       | Some row => match nth_error row (Z.to_nat x) with
                     | Some p => p
                     | None => zero_pixel (mode im)
                     end
       | None => zero_pixel (mode im)
       end
  else zero_pixel (mode im).

(** [zrange a n] is [a, a+1, ..., a+n-1]. *)
Definition zrange (a n : Z) : list Z :=
  map (fun i => a + Z.of_nat i) (seq 0 (Z.to_nat n)).

(** Rows of a [w] by [h] image whose pixel at [(x, y)] is [f x y]. *)
Definition tabulate (w h : Z) (f : Z -> Z -> pixel) : list (list pixel) :=
  map (fun y => map (fun x => f x y) (zrange 0 w)) (zrange 0 h).

(** A well-formed image: [img_height] rows of [img_width] pixels. *)
Definition well_formed (im : image) : Prop :=
  0 <= img_width im /\ 0 <= img_height im /\
  List.length (pixels im) = Z.to_nat (img_height im) /\
  Forall (fun row => List.length row = Z.to_nat (img_width im)) (pixels im).

(** [Image.crop(box)]: the result has size [(x2 - x1, y2 - y1)]; areas
    outside the source are zero filled.  Pillow refuses a box whose right
    (lower) coordinate is less than its left (upper) one. *)
Definition crop (im : image) (box : Z * Z * Z * Z) : result image :=
  let '(x1, y1, x2, y2) := box in
  if (x2 <? x1) || (y2 <? y1) then Err ValueError
  else Ok (mkImage (mode im) (x2 - x1) (y2 - y1)
             (tabulate (x2 - x1) (y2 - y1)
                (fun x y => get_pixel im (x + x1) (y + y1)))).

(** The transpose methods of [PIL.Image]. *)
Inductive transpose_method :=
| FLIP_LEFT_RIGHT
| FLIP_TOP_BOTTOM
| ROTATE_90
| ROTATE_180
| ROTATE_270.

(** [Image.transpose(method)]; [ROTATE_90] turns counter-clockwise. *)
Definition transpose (im : image) (m : transpose_method) : image :=
  let w := img_width im in
  let h := img_height im in
  match m with
  | FLIP_LEFT_RIGHT =>
      mkImage (mode im) w h (tabulate w h (fun x y => get_pixel im (w - 1 - x) y))
  | FLIP_TOP_BOTTOM =>
      mkImage (mode im) w h (tabulate w h (fun x y => get_pixel im x (h - 1 - y)))
  | ROTATE_90 =>
      mkImage (mode im) h w (tabulate h w (fun x y => get_pixel im (w - 1 - y) x))
  | ROTATE_180 =>
      mkImage (mode im) w h
        (tabulate w h (fun x y => get_pixel im (w - 1 - x) (h - 1 - y)))
  | ROTATE_270 =>
      mkImage (mode im) h w (tabulate h w (fun x y => get_pixel im y (h - 1 - x)))
  end.

(** [getattr(Image, name)] for the transpose constants of [PIL.Image];
    any other name raises [AttributeError]. *)
Definition image_constant (name : string) : result transpose_method :=
  if String.eqb name "FLIP_LEFT_RIGHT" then Ok FLIP_LEFT_RIGHT
  else if String.eqb name "FLIP_TOP_BOTTOM" then Ok FLIP_TOP_BOTTOM
  else if String.eqb name "ROTATE_90" then Ok ROTATE_90
  else if String.eqb name "ROTATE_180" then Ok ROTATE_180
  else if String.eqb name "ROTATE_270" then Ok ROTATE_270
  else Err AttributeError.

(** The parts of PIL whose pixel output this repository does not fix. *)
Class Pil := {
  (** pixels of [image.resize((w, h), Image.ANTIALIAS)] *)
  resample_antialias : image -> Z -> Z -> list (list pixel);
  (** [image.rotate(degrees, Image.BICUBIC, extend)] *)
  rotate_bicubic : image -> Z -> bool -> image;
  (** pixels of [image.convert(mode)] *)
  convert_pixels : image -> string -> list (list pixel);
  (** pixels of [Image.composite(im1, im2, mask)] *)
  composite_pixels : image -> image -> image -> list (list pixel)
}.

Section PilOps.
Context `{Pil}.

(** [image.resize(size, Image.ANTIALIAS)]; Pillow's resampler refuses a
    size below one pixel. *)
Definition resize (im : image) (sz : Z * Z) : result image :=
  if (fst sz <? 1) || (snd sz <? 1) then Err ValueError
  else Ok (mkImage (mode im) (fst sz) (snd sz)
             (resample_antialias im (fst sz) (snd sz))).

Definition convert (im : image) (m : string) : image :=
  mkImage m (img_width im) (img_height im) (convert_pixels im m).

Definition new_image (m : string) (sz : Z * Z) (color : pixel) : image :=
  mkImage m (fst sz) (snd sz) (tabulate (fst sz) (snd sz) (fun _ _ => color)).

Definition composite (im1 im2 mask : image) : image :=
  mkImage (mode im1) (img_width im1) (img_height im1)
    (composite_pixels im1 im2 mask).

End PilOps.

(** Float division: [ZeroDivisionError] on a zero divisor. *)
Definition qdiv (x y : Q) : result Q :=
  if Qeq_bool y 0 then Err ZeroDivisionError else Ok (x / y)%Q.

(** [a or b] for an optional number [a] and a number [b]. *)
Definition or_Z (a : option Z) (b : Z) : Z :=
  match a with
  | Some z => if Z.eqb z 0 then b else z
  | None => b
  end.

(** ** [AnchorCropProcessorMixin.get_crop_box] *)

Definition get_crop_box (im : image) (width height : Z) (anchor : string)
  : result (Z * Z * Z * Z) :=
  let w := img_width im in
  let h := img_height im in
  let width := if width >? w then w else width in
  let height := if height >? h then h else height in
  let cx := py_int (inject_Z w * (1 # 2)) in
  let cy := py_int (inject_Z h * (1 # 2)) in
  let r :=
    if str_in anchor ["center"; "crop"; "fill"] then
      Ok (py_int (inject_Z cx - inject_Z width * (1 # 2)),
          py_int (inject_Z cy - inject_Z height * (1 # 2)))
    else if String.eqb anchor "top" then
      Ok (py_int (inject_Z cx - inject_Z width * (1 # 2)), 0)
    else if String.eqb anchor "left" then
      Ok (0, py_int (inject_Z cy - inject_Z height * (1 # 2)))
    else if String.eqb anchor "right" then
      Ok (w - width, py_int (inject_Z cy - inject_Z height * (1 # 2)))
    else if String.eqb anchor "bottom" then
      Ok (py_int (inject_Z cx - inject_Z width * (1 # 2)), h - height)
    else Err ValueError in
  xy <- r ;;
  let '(x1, y1) := xy in
  Ok (x1, y1, x1 + width, y1 + height).

(** ** [CropProcessor] *)

(** The [crop_box] option: a Python list or tuple of numbers or [None]s. *)
Inductive py_seq :=
| PyList (l : list (option Q))
| PyTuple (l : list (option Q)).

Definition seq_items (s : py_seq) : list (option Q) :=
  match s with PyList l | PyTuple l => l end.

Record crop_options := {
  crop_box : option py_seq;
  crop_percent : bool
}.

Definition crop_defaults : crop_options :=
  {| crop_box := None; crop_percent := true |}.

Definition py_index (l : list Q) (i : nat) : result Q :=
  match nth_error l i with Some v => Ok v | None => Err IndexError end.

(** [CropProcessor.get_crop_box]; the input size is captured by [prep].
    Filling in a [None] writes into the sequence, which a tuple refuses. *)
Definition crop_get_crop_box (input_size : Z * Z) (o : crop_options)
  : result (Z * Z * Z * Z) :=
  let '(iw, ih) := input_size in
  let cb :=
    match crop_box o with
    | Some s => if negb (Nat.eqb (List.length (seq_items s)) 0) then s
                else PyList [None; None; None; None]
    | None => PyList [None; None; None; None]
    end in
  filled <-
    (match cb with
     | PyTuple l =>
         if existsb (fun v => match v with None => true | _ => false end) l
         then Err TypeError else Ok l
     | PyList l => Ok l
     end) ;;
  let l := map (fun v => match v with Some q => q | None => 0%Q end) filled in
  c0 <- py_index l 0 ;; c1 <- py_index l 1 ;;
  c2 <- py_index l 2 ;; c3 <- py_index l 3 ;;
  let W := inject_Z iw in
  let H := inject_Z ih in
  let box :=
    if crop_percent o then
      [c0 / 100 * W; c1 / 100 * H; W - c2 / 100 * W; H - c3 / 100 * H]%Q
    else [c0; c1; W - c2; H - c3]%Q in
  match map py_int box with
  | [x1; y1; x2; y2] => Ok (x1, y1, x2, y2)
  | _ => Err IndexError
  end.

Definition crop_processor (im : image) (o : crop_options) : result image :=
  box <- crop_get_crop_box (size im) o ;;
  crop im box.

(** ** [FlipProcessor] *)

Record flip_options := { flip : string }.

Definition flip_defaults : flip_options := {| flip := "" |}.

Definition flip_processor (im : image) (o : flip_options) : image :=
  if negb (str_truthy (flip o)) then im
  else if str_in (flip o) ["x"; "h"] then transpose im FLIP_LEFT_RIGHT
  else transpose im FLIP_TOP_BOTTOM.

(** ** [ResizeProcessor] *)

Record resize_options := {
  r_width : option Z;
  r_height : option Z;
  fit : string;
  upscale : bool
}.

Definition resize_defaults : resize_options :=
  {| r_width := None; r_height := None; fit := "fit"; upscale := false |}.

(** [ResizeProcessor.prep]: a missing or zero box side is the input's. *)
Definition resize_prep (im : image) (o : resize_options) : Z * Z :=
  (or_Z (r_width o) (img_width im), or_Z (r_height o) (img_height im)).

(** The block of [ResizeProcessor.get_scaled_size] that appears twice in
    the source, under "upscale if necessary" and under "enlarge for
    cropping": grow the size to reach the box, keeping the aspect ratio. *)
Definition enlarge_to_box (aspect_ratio box_width box_height : Q) (wh : Q * Q)
  : result (Q * Q) :=
  let '(width, height) := wh in
  wh <- (if Qltb width box_width then
           h' <- qdiv box_width aspect_ratio ;; Ok (box_width, h')
         else Ok (width, height)) ;;
  let '(width, height) := wh in
  if Qltb height box_height then Ok (box_height * aspect_ratio, box_height)%Q
  else Ok (width, height).

(** The "fit into bounding box" block of [get_scaled_size]. *)
Definition shrink_to_box (box_width box_height : Q) (wh : Q * Q) : result (Q * Q) :=
  let '(width, height) := wh in
  wh <- (if Qltb box_width width then
           q <- qdiv (height * box_width)%Q width ;;
           Ok (inject_Z (py_int box_width), inject_Z (py_int (py_max1 q)))
         else Ok (width, height)) ;;
  let '(width, height) := wh in
  if Qltb box_height height then
    q <- qdiv (width * box_height)%Q height ;;
    Ok (inject_Z (py_int (py_max1 q)), inject_Z (py_int box_height))
  else Ok (width, height).

(** [ResizeProcessor.get_scaled_size]. *)
Definition get_scaled_size (input_size box : Z * Z) (fit_mode : string)
  (up : bool) : result (Z * Z) :=
  let width := inject_Z (fst input_size) in
  let height := inject_Z (snd input_size) in
  let box_width := inject_Z (fst box) in
  let box_height := inject_Z (snd box) in
  aspect_ratio <- qdiv width height ;;
  (* upscale if necessary *)
  wh <- (if up then enlarge_to_box aspect_ratio box_width box_height (width, height)
         else Ok (width, height)) ;;
  (* fit into bounding box *)
  wh <- shrink_to_box box_width box_height wh ;;
  (* enlarge for cropping *)
  wh <- (if negb (String.eqb fit_mode "fit") then
           enlarge_to_box aspect_ratio box_width box_height wh
         else Ok wh) ;;
  let '(width, height) := wh in
  Ok (py_ceil width, py_ceil height).

Section ResizeProcessor.
Context `{Pil}.

Definition resize_processor (im : image) (o : resize_options) : result image :=
  let '(bw, bh) := resize_prep im o in
  sz <- get_scaled_size (size im) (bw, bh) (fit o) (upscale o) ;;
  im' <- resize im sz ;;
  if negb (String.eqb (fit o) "fit") then
    box <- get_crop_box im' bw bh (fit o) ;;
    crop im' box
  else Ok im'.

End ResizeProcessor.

(** ** [RotateProcessor] and [RotateCropProcessor] *)

(** The options of both rotate processors; [crop_mode] is only read by
    [RotateCropProcessor]. *)
Record rotate_options := {
  degrees : Z;
  extend : bool;
  color : option (list Z);
  preserve_transparency : bool;
  crop_mode : string
}.

Definition rotate_defaults : rotate_options :=
  {| degrees := 0; extend := true; color := None;
     preserve_transparency := true; crop_mode := "aspect_ratio" |}.

(** The options after [prep], with the [transposable] flag it adds. *)
Record rotate_state := {
  ro : rotate_options;
  transposable : bool
}.

(** [RotateProcessor.prep]: Python's [%] takes the sign of the divisor,
    as [Z.modulo] does. *)
Definition rotate_prep (o : rotate_options) : rotate_state :=
  {| ro := o; transposable := Z.eqb (degrees o mod 90) 0 |}.

(** [RotateCropProcessor.prep]: forces [extend] and clears [color]. *)
Definition rotate_crop_prep (o : rotate_options) : rotate_state :=
  let p := rotate_prep o in
  {| ro := {| degrees := degrees (ro p); extend := true; color := None;
              preserve_transparency := preserve_transparency (ro p);
              crop_mode := crop_mode (ro p) |};
     transposable := transposable p |}.

Definition py_index_Z (l : list Z) (i : nat) : result Z :=
  match nth_error l i with Some v => Ok v | None => Err IndexError end.

Section RotateProcessor.
Context `{Pil}.

(** [RotateProcessor.process]. *)
Definition rotate_process (p : rotate_state) (im : image) : result image :=
  let o := ro p in
  if transposable p then
    if Z.eqb (degrees o) 0 then Ok im
    else
      method <- image_constant ("ROTATE_" ++ py_str_int (degrees o)) ;;
      Ok (transpose im method)
  else
    match color o with
    | Some ((_ :: _) as col) =>
        let original_mode := mode im in
        let im1 := convert im "RGBA" in
        let rotated := rotate_bicubic im1 (degrees o) (extend o) in
        let background := new_image "RGBA" (size rotated) col in
        let im2 := composite rotated background rotated in
        if negb (preserve_transparency o) then Ok (convert im2 original_mode)
        else
          alpha <- py_index_Z col 3 ;;
          if Z.eqb alpha 255 then Ok (convert im2 original_mode) else Ok im2
    | _ => Ok (rotate_bicubic im (degrees o) (extend o))
    end.

Definition rotate_processor (im : image) (o : rotate_options) : result image :=
  rotate_process (rotate_prep o) im.

End RotateProcessor.

(** [int(x)] on a float given as a real number. *)
Definition py_int_R (x : R) : Z :=
  if Rle_dec 0 x then Int_part x else (- Int_part (- x))%Z.

Definition rdiv (x y : R) : result R :=
  if Req_EM_T y 0 then Err ZeroDivisionError else Ok (x / y)%R.

(** [RotateCropProcessor.get_rotated_rect_aspect_ratio]. *)
Definition get_rotated_rect_aspect_ratio (input_size : Z * Z) (deg : Z)
  (rotated : image) : result (Z * Z) :=
  let input_width := IZR (fst input_size) in
  let input_height := IZR (snd input_size) in
  aspect_ratio <- rdiv input_width input_height ;;
  rotated_aspect_ratio <- rdiv (IZR (img_width rotated)) (IZR (img_height rotated)) ;;
  let angle := (Rabs (IZR deg) * PI / 180)%R in
  total_height <-
    (if Rlt_dec aspect_ratio 1 then rdiv input_width rotated_aspect_ratio
     else Ok input_height) ;;
  h <- rdiv total_height (aspect_ratio * sin angle + cos angle)%R ;;
  let w := (h * aspect_ratio)%R in
  Ok (py_int_R w, py_int_R h).

(** [RotateCropProcessor.get_rotated_rect_max_area]. *)
Definition get_rotated_rect_max_area (input_size : Z * Z) (deg : Z)
  (rotated : image) : result (Z * Z) :=
  let '(iw, ih) := input_size in
  if (iw <=? 0) || (ih <=? 0) then Ok (0, 0)
  else
    let angle := (IZR deg * PI / 180)%R in
    let width_is_longer := iw >=? ih in
    let '(side_long, side_short) :=
      if width_is_longer then (IZR iw, IZR ih) else (IZR ih, IZR iw) in
    let sin_a := Rabs (sin angle) in
    let cos_a := Rabs (cos angle) in
    wh <-
      (if Rle_dec side_short (2 * sin_a * cos_a * side_long)%R then
         (* half constrained case *)
         let x := (/ 2 * side_short)%R in
         if width_is_longer then
           wr <- rdiv x sin_a ;; hr <- rdiv x cos_a ;; Ok (wr, hr)
         else
           wr <- rdiv x cos_a ;; hr <- rdiv x sin_a ;; Ok (wr, hr)
       else
         (* fully constrained case *)
         let cos_2a := (cos_a * cos_a - sin_a * sin_a)%R in
         wr <- rdiv (IZR iw * cos_a - IZR ih * sin_a)%R cos_2a ;;
         hr <- rdiv (IZR ih * cos_a - IZR iw * sin_a)%R cos_2a ;;
         Ok (wr, hr)) ;;
    let '(wr, hr) := wh in
    Ok (py_int_R wr, py_int_R hr).

(** [getattr(self, 'get_rotated_rect_' + crop_mode)]. *)
Definition rotated_rect_method (crop_mode : string)
  : result (Z * Z -> Z -> image -> result (Z * Z)) :=
  if String.eqb crop_mode "aspect_ratio" then Ok get_rotated_rect_aspect_ratio
  else if String.eqb crop_mode "max_area" then Ok get_rotated_rect_max_area
  else Err AttributeError.

Section RotateCropProcessor.
Context `{Pil}.

(** [RotateCropProcessor.process]; the input size is the one [prep]
    captured from [im]. *)
Definition rotate_crop_process (p : rotate_state) (im : image) : result image :=
  rotated <- rotate_process p im ;;
  if transposable p then Ok rotated
  else
    get_rect <- rotated_rect_method (crop_mode (ro p)) ;;
    wh <- get_rect (size im) (degrees (ro p)) rotated ;;
    let '(w, h) := wh in
    crop_box <- get_crop_box rotated w h "center" ;;
    crop rotated crop_box.

Definition rotate_crop_processor (im : image) (o : rotate_options) : result image :=
  rotate_crop_process (rotate_crop_prep o) im.

End RotateCropProcessor.

(** ** [DefaultEngine] *)

(** The fields of a [MultiresRecipe] the engine reads. *)
Module Recipe.
Record t := {
  flip : string;
  rotate : option Z;
  rotate_crop : string;
  rotate_color : option (list Z);
  crop : option (list Z);
  width : option Z;
  height : option Z;
  upscale : bool;
  fit : string;
  file_type : string;
  quality : option Z
}.
End Recipe.

(** What [DefaultEngine.save] hands to [image.save]: the file object's
    name, the format, the keyword options and the image itself. *)
Record artifact := {
  art_name : string;
  art_format : string;
  art_options : list (string * Z);
  art_image : image
}.

(** [DefaultEngine.FILE_TYPE_EXT_MAPPING.get(file_type, file_type)]. *)
Definition file_type_ext (file_type : string) : string :=
  if String.eqb file_type "jpeg" then "jpg"
  else if String.eqb file_type "png" then "png"
  else file_type.

Section DefaultEngine.
Context `{Pil}.

(** [DefaultEngine.process]. *)
Definition engine_process (r : Recipe.t) (im : image) : result image :=
  let im :=
    if str_truthy (Recipe.flip r) then
      flip_processor im {| flip := Recipe.flip r |}
    else im in
  im <-
    (match Recipe.rotate r with
     | Some deg =>
         if Z.eqb deg 0 then Ok im
         else
           let col :=
             if opt_list_truthy (Recipe.rotate_color r) then Recipe.rotate_color r
             else None in
           if negb (str_truthy (Recipe.rotate_crop r)) then
             rotate_processor im
               {| degrees := deg; extend := extend rotate_defaults; color := col;
                  preserve_transparency := false;
                  crop_mode := crop_mode rotate_defaults |}
           else
             rotate_crop_processor im
               {| degrees := deg; extend := extend rotate_defaults; color := col;
                  preserve_transparency := false;
                  crop_mode := Recipe.rotate_crop r |}
     | None => Ok im
     end) ;;
  im <-
    (match Recipe.crop r with
     | Some ((_ :: _) as l) =>
         crop_processor im
           {| crop_box := Some (PyList (map (fun z => Some (inject_Z z)) l));
              crop_percent := crop_percent crop_defaults |}
     | _ => Ok im
     end) ;;
  if opt_Z_truthy (Recipe.width r) || opt_Z_truthy (Recipe.height r) then
    resize_processor im
      {| r_width := Some (or_Z (Recipe.width r) (img_width im));
         r_height := Some (or_Z (Recipe.height r) (img_height im));
         fit := Recipe.fit r;
         upscale := Recipe.upscale r |}
  else Ok im.

(** [DefaultEngine.save]. *)
Definition engine_save (r : Recipe.t) (im : image) : artifact :=
  let file_type := Recipe.file_type r in
  let name := "." ++ file_type_ext file_type in
  let save_kwargs :=
    if str_in file_type ["jpeg"] && opt_Z_truthy (Recipe.quality r) then
      match Recipe.quality r with Some q => [("quality", q)] | None => [] end
    else [] in
  let im :=
    if String.eqb file_type "jpeg" then
      if negb (str_in (mode im) ["RGB"; "RGBA"]) then convert im "RGB" else im
    else im in
  {| art_name := name; art_format := file_type;
     art_options := save_kwargs; art_image := im |}.

(** [BaseEngine.__call__] with the default identity [pre] and [post]
    hooks. *)
Definition engine_call (im : image) (r : Recipe.t) : result artifact :=
  im <- engine_process r im ;;
  Ok (engine_save r im).

End DefaultEngine.

(** A concrete [Pil] instance for running the model: zero pixels
    everywhere and a bicubic rotation that keeps the canvas. *)
#[local] Instance blank_pil : Pil := {|
  resample_antialias := fun im w h => tabulate w h (fun _ _ => zero_pixel (mode im));
  rotate_bicubic := fun im _ _ => im;
  convert_pixels := fun im m =>
    tabulate (img_width im) (img_height im) (fun _ _ => zero_pixel m);
  composite_pixels := fun im1 _ _ => pixels im1
|}.

(** * Properties *)

(** The recipe of the end-to-end scenario; its rotate colour and upscale
    flag are left free. *)
Definition c1_recipe (rc : option (list Z)) (up : bool) : Recipe.t :=
  {| Recipe.flip := ""; Recipe.rotate := Some 90; Recipe.rotate_crop := "";
     Recipe.rotate_color := rc; Recipe.crop := None;
     Recipe.width := Some 50; Recipe.height := Some 50; Recipe.upscale := up;
     Recipe.fit := "fit"; Recipe.file_type := "jpeg"; Recipe.quality := Some 80 |}.

(** A 200x100 RGB image. *)
Definition im_200x100 : image := mkImage "RGB" 200 100 [].

(** A 2x1 greyscale image with its pixels. *)
Definition im_2x1_L : image := mkImage "L" 2 1 [[[1]; [2]]].

(** The value of a string of decimal digits, read from the left. *)
Fixpoint dec_val (s : string) (v : Z) : Z :=
  match s with
  | EmptyString => v
  | String c s' => dec_val s' (v * 10 + (Z.of_nat (nat_of_ascii c) - 48))
  end.

(** The size [get_scaled_size] computes in fit mode without upscaling, in
    integers: shrink to the box width, then to the box height, each time
    scaling the other side by floor division and keeping it at least 1. *)
Definition shrink_Z (iw ih bw bh : Z) : Z * Z :=
  let '(w, h) := if bw <? iw then (bw, Z.max (ih * bw / iw) 1) else (iw, ih) in
  if bh <? h then (Z.max (w * bh / h) 1, bh) else (w, h).

Definition anchors : list string :=
  ["center"; "crop"; "fill"; "top"; "left"; "right"; "bottom"].

Definition crop_opts (mk : list (option Q) -> py_seq) (l : list Z) (percent : bool)
  : crop_options :=
  {| crop_box := Some (mk (map (fun z => Some (inject_Z z)) l));
     crop_percent := percent |}.

Definition is_none {A} (v : option A) : bool :=
  match v with None => true | Some _ => false end.

(** C1: on a 200x100 RGB source the scenario recipe takes the 90-degree
    transpose fast path (a 100x200 image), resizes it in fit mode to
    (25, 50) and hands an RGB image to the JPEG encoder with quality 80
    under the name [".jpg"]. *)
Theorem C1_default_pipeline_scenario `{Pil} (px : list (list pixel))
  (rc : option (list Z)) (up : bool) :
  let src := mkImage "RGB" 200 100 px in
  engine_process (c1_recipe rc up) src =
    resize (transpose src ROTATE_90) (25, 50) /\
  size (transpose src ROTATE_90) = (100, 200) /\
  get_scaled_size (100, 200) (50, 50) "fit" up = Ok (25, 50) /\
  exists out,
    engine_call src (c1_recipe rc up) = Ok out /\
    size (art_image out) = (25, 50) /\
    mode (art_image out) = "RGB" /\
    art_name out = ".jpg" /\
    art_format out = "jpeg" /\
    art_options out = [("quality", 80)].
Proof.
  intros src.
  destruct up.
  all: split; [reflexivity | ].
  all: split; [reflexivity | ].
  all: split; [reflexivity | ].
  all: eexists; split; [reflexivity | ].
  all: repeat split.
Qed.

(** ** Helper lemmas on the image model *)

Lemma tabulate_length (w h : Z) (f : Z -> Z -> pixel) :
  List.length (tabulate w h f) = Z.to_nat h.
Proof. unfold tabulate, zrange. now rewrite !length_map, length_seq. Qed.

Lemma nth_map_seq {A} (f : nat -> A) (n k : nat) (d : A) :
  (k < n)%nat -> nth k (map f (seq 0 n)) d = f k.
Proof.
  intros Hk. rewrite (nth_indep _ d (f 0%nat)) by (rewrite length_map, length_seq; lia).
  now rewrite map_nth, seq_nth.
Qed.

(** Cropping to the full box rebuilds the rows of a well-formed image. *)
Lemma tabulate_get_pixel (im : image) :
  well_formed im ->
  tabulate (img_width im) (img_height im)
    (fun x y => get_pixel im (x + 0) (y + 0)) = pixels im.
Proof.
  intros [Hw [Hh [Hlen Hrows]]].
  apply nth_ext with (d := []) (d' := []).
  { now rewrite tabulate_length, Hlen. }
  intros n Hn. rewrite tabulate_length in Hn.
  unfold tabulate, zrange. rewrite map_map, nth_map_seq by lia. rewrite map_map.
  set (row := nth n (pixels im) []).
  assert (Hrow : List.length row = Z.to_nat (img_width im)).
  { rewrite Forall_forall in Hrows. apply Hrows, nth_In. lia. }
  apply nth_ext with (d := []) (d' := []).
  { now rewrite length_map, length_seq. }
  intros m Hm. rewrite length_map, length_seq in Hm.
  rewrite nth_map_seq by lia. unfold get_pixel.
  replace (0 + Z.of_nat m + 0) with (Z.of_nat m) by lia.
  replace (0 + Z.of_nat n + 0) with (Z.of_nat n) by lia.
  replace ((0 <=? Z.of_nat m) && (Z.of_nat m <? img_width im) &&
           (0 <=? Z.of_nat n) && (Z.of_nat n <? img_height im)) with true
    by (symmetry; repeat rewrite andb_true_iff; repeat split; lia).
  rewrite !Nat2Z.id.
  rewrite (nth_error_nth' (pixels im) []) by lia.
  fold row. rewrite (nth_error_nth' row []) by lia. reflexivity.
Qed.

Lemma py_int_inject (q : Q) (z : Z) : (q == inject_Z z)%Q -> py_int q = z.
Proof.
  intros E. unfold py_int.
  destruct (Qle_bool 0 q) eqn:B.
  - rewrite E. apply Qfloor_Z.
  - rewrite E, <- inject_Z_opp, Qfloor_Z. lia.
Qed.

(** An all-zero inset box is the full image, in percent or pixel units. *)
Lemma crop_get_crop_box_zero (w h : Z) (r : bool) :
  crop_get_crop_box (w, h)
    {| crop_box := Some (PyTuple [Some 0%Q; Some 0%Q; Some 0%Q; Some 0%Q]);
       crop_percent := r |} = Ok (0, 0, w, h).
Proof.
  destruct r; cbn -[py_int Qmult Qdiv Qminus inject_Z].
  all: repeat f_equal; apply py_int_inject; field.
Qed.

(** [get_crop_box] never yields a box wider or taller than the image. *)
Lemma get_crop_box_within (im : image) (w h : Z) (anchor : string)
  (x1 y1 x2 y2 : Z) :
  get_crop_box im w h anchor = Ok (x1, y1, x2, y2) ->
  x2 - x1 <= img_width im /\ y2 - y1 <= img_height im.
Proof.
  unfold get_crop_box.
  destruct (str_in anchor ["center"; "crop"; "fill"]);
  [ | destruct (String.eqb anchor "top");
      [ | destruct (String.eqb anchor "left");
          [ | destruct (String.eqb anchor "right");
              [ | destruct (String.eqb anchor "bottom")]]]];
  cbn; intros E; try discriminate; injection E; intros; subst;
  destruct (w >? img_width im) eqn:Ew; destruct (h >? img_height im) eqn:Eh;
  rewrite ?Z.gtb_ltb, ?Z.ltb_lt, ?Z.ltb_ge in *; lia.
Qed.

(** [crop] yields an image of the box's size. *)
Lemma crop_size (im out : image) (x1 y1 x2 y2 : Z) :
  crop im (x1, y1, x2, y2) = Ok out ->
  img_width out = x2 - x1 /\ img_height out = y2 - y1.
Proof.
  unfold crop. destruct ((x2 <? x1) || (y2 <? y1)); intros E; inversion E.
  now split.
Qed.

(** C5: identity laws.  [flip=''] returns the image itself; [degrees=0]
    returns the image itself whatever the other rotate options are; the
    crop box [(0,0,0,0)] returns a pixel-identical image of the same mode,
    in percent and in pixel units. *)
Theorem C5_identity_laws `{Pil} (im : image) (ext pt : bool)
  (col : option (list Z)) (cm : string) (percent : bool) :
  flip_processor im {| flip := "" |} = im /\
  rotate_processor im {| degrees := 0; extend := ext; color := col;
                         preserve_transparency := pt; crop_mode := cm |} = Ok im /\
  (well_formed im ->
   crop_processor im
     {| crop_box := Some (PyTuple [Some 0%Q; Some 0%Q; Some 0%Q; Some 0%Q]);
        crop_percent := percent |} = Ok im).
Proof.
  split; [reflexivity | ]. split; [reflexivity | ].
  intros Hwf. unfold crop_processor. unfold size at 1.
  rewrite crop_get_crop_box_zero. cbn.
  rewrite !Z.sub_0_r.
  replace (img_width im <? 0) with false
    by (symmetry; apply Z.ltb_ge; apply Hwf).
  replace (img_height im <? 0) with false
    by (symmetry; apply Z.ltb_ge; apply Hwf).
  cbn. rewrite tabulate_get_pixel by exact Hwf.
  now destruct im.
Qed.

(** C6: the [right] anchor puts the box against the right edge and centres
    it vertically, after clamping the target size to the image; on a
    100x100 image a 40x40 box is [(60, 30, 100, 70)]. *)
Theorem C6_anchor_right (im : image) (width height : Z) :
  let w := img_width im in
  let h := img_height im in
  let width' := if width >? w then w else width in
  let height' := if height >? h then h else height in
  let y1 := py_int (inject_Z (py_int (inject_Z h * (1 # 2))) -
                    inject_Z height' * (1 # 2)) in
  get_crop_box im width height "right" = Ok (w - width', y1, w, y1 + height') /\
  (forall m px, get_crop_box (mkImage m 100 100 px) 40 40 "right" =
                Ok (60, 30, 100, 70)).
Proof.
  split.
  - unfold get_crop_box. cbn -[py_int Qmult Qminus inject_Z].
    f_equal. f_equal. f_equal. lia.
  - reflexivity.
Qed.

(** C4: whenever the rotate-crop operator returns an image, that image is
    no wider and no taller than the canvas the rotation produced, for every
    [degrees] and every [crop_mode]. *)
Theorem C4_rotate_crop_within_canvas `{Pil} (im : image) (o : rotate_options) :
  match rotate_crop_processor im o with
  | Ok out =>
      exists rotated,
        rotate_process (rotate_crop_prep o) im = Ok rotated /\
        img_width out <= img_width rotated /\
        img_height out <= img_height rotated
  | Err _ => True
  end.
Proof.
  unfold rotate_crop_processor, rotate_crop_process.
  remember (rotate_crop_prep o) as p eqn:Ep. clear Ep.
  destruct (rotate_process p im) as [rotated | e]; cbn [bind]; [ | exact I].
  destruct (transposable p).
  { exists rotated. repeat split; lia. }
  destruct (rotated_rect_method (crop_mode (ro p))) as [get_rect | e]; cbn [bind];
    [ | exact I].
  destruct (get_rect (size im) (degrees (ro p)) rotated) as [[w h] | e]; cbn [bind];
    [ | exact I].
  destruct (get_crop_box rotated w h "center") as [[[[x1 y1] x2] y2] | e] eqn:Ebox;
    cbn [bind]; [ | exact I].
  destruct (crop rotated (x1, y1, x2, y2)) as [out | e] eqn:Ecrop; [ | exact I].
  apply get_crop_box_within in Ebox. apply crop_size in Ecrop.
  exists rotated. split; [reflexivity | lia].
Qed.

(** C2 (as the code does it): [prep] replaces a zero box side by the input
    image's side, so a zero width or height behaves as that side and raises
    nothing. *)
Theorem C2_zero_box_side_is_input_side `{Pil} (im : image)
  (w h : option Z) (f : string) (up : bool) :
  resize_processor im {| r_width := Some 0; r_height := h; fit := f; upscale := up |} =
  resize_processor im {| r_width := Some (img_width im); r_height := h;
                         fit := f; upscale := up |} /\
  resize_processor im {| r_width := w; r_height := Some 0; fit := f; upscale := up |} =
  resize_processor im {| r_width := w; r_height := Some (img_height im);
                         fit := f; upscale := up |}.
Proof.
  unfold resize_processor, resize_prep, or_Z. cbn.
  split; [destruct (Z.eqb (img_width im) 0) | destruct (Z.eqb (img_height im) 0)];
  reflexivity.
Qed.

(** C2 as stated fails: resizing a 200x100 image into the box [(0, 50)]
    succeeds with a 100x50 image instead of raising. *)
Lemma C2_counterexample :
  exists out,
    resize_processor im_200x100
      {| r_width := Some 0; r_height := Some 50; fit := "fit"; upscale := false |} =
    Ok out /\ size out = (100, 50).
Proof. eexists. split; reflexivity. Qed.

(** C8: the JPEG encoder receives an RGB conversion of any image whose mode
    is neither RGB nor RGBA; the PNG encoder receives the image as it is. *)
Theorem C8_jpeg_mode_normalisation `{Pil} (r : Recipe.t) (im : image) :
  (Recipe.file_type r = "jpeg" -> ~ In (mode im) ["RGB"; "RGBA"] ->
   art_image (engine_save r im) = convert im "RGB" /\
   mode (art_image (engine_save r im)) = "RGB") /\
  (Recipe.file_type r = "png" -> art_image (engine_save r im) = im).
Proof.
  unfold engine_save. split.
  - intros Ht Hm. rewrite Ht.
    destruct (str_in (mode im) ["RGB"; "RGBA"]) eqn:E.
    + exfalso. apply Hm. unfold str_in in E. apply existsb_exists in E.
      destruct E as [x [Hx Ex]]. apply String.eqb_eq in Ex. now subst.
    + split; reflexivity.
  - intros Ht. now rewrite Ht.
Qed.

(** ** Decimal printing of integers *)

Lemma dec_val_app (s t : string) (v : Z) :
  dec_val (s ++ t) v = dec_val t (dec_val s v).
Proof. revert v. induction s as [ | c s IH]; intros v; simpl; auto. Qed.

Lemma string_app_assoc (s t u : string) : (s ++ t) ++ u = s ++ (t ++ u).
Proof. induction s as [ | c s IH]; simpl; congruence. Qed.

Lemma digits_spec (fuel : nat) : forall n acc,
  0 <= n < 10 ^ Z.of_nat fuel ->
  exists s, digits fuel n acc = s ++ acc /\ dec_val s 0 = n.
Proof.
  induction fuel as [ | fuel IH]; intros n acc Hn.
  - exists "". simpl in *. split; [reflexivity | lia].
  - rewrite Nat2Z.inj_succ, Z.pow_succ_r in Hn by lia.
    assert (Hd : (48 + Z.to_nat (n mod 10) < 256)%nat).
    { pose proof (Z.mod_pos_bound n 10 ltac:(lia)). lia. }
    assert (Hc : Z.of_nat (nat_of_ascii (ascii_of_nat (48 + Z.to_nat (n mod 10))))
                 - 48 = n mod 10).
    { rewrite nat_ascii_embedding by exact Hd.
      pose proof (Z.mod_pos_bound n 10 ltac:(lia)). lia. }
    remember (ascii_of_nat (48 + Z.to_nat (n mod 10))) as c eqn:Ec.
    cbn [digits]. rewrite <- Ec. destruct (n <? 10) eqn:Elt.
    + exists (String c ""). split; [reflexivity | ]. simpl dec_val. rewrite Hc.
      rewrite Z.ltb_lt in Elt. rewrite Z.mod_small; lia.
    + rewrite Z.ltb_ge in Elt.
      destruct (IH (n / 10) (String c acc)) as [s [Es Ev]].
      { split; [apply Z.div_pos; lia | apply Z.div_lt_upper_bound; lia]. }
      exists (s ++ String c "").
      split.
      * rewrite Es, string_app_assoc. reflexivity.
      * rewrite dec_val_app, Ev. simpl dec_val. rewrite Hc.
        pose proof (Z.div_mod n 10 ltac:(lia)). lia.
Qed.

(** [str(z)] of a non-negative [z] reads back as [z]. *)
Lemma py_str_int_nonneg (z : Z) : 0 <= z -> dec_val (py_str_int z) 0 = z.
Proof.
  intros Hz. unfold py_str_int.
  replace (z <? 0) with false by (symmetry; apply Z.ltb_ge; lia).
  rewrite Z.abs_eq by lia.
  destruct (digits_spec (S (Z.to_nat (Z.log2 z))) z "") as [s [Es Ev]].
  - split; [lia | ].
    rewrite Nat2Z.inj_succ, Z2Nat.id by apply Z.log2_nonneg.
    destruct (Z.eq_dec z 0) as [-> | Hnz]; [simpl; lia | ].
    destruct (Z.log2_spec z ltac:(lia)) as [_ Hup].
    eapply Z.lt_le_trans; [exact Hup | ].
    apply Z.pow_le_mono_l. lia.
  - rewrite Es. replace (s ++ "") with s; [exact Ev | ].
    clear. induction s; simpl; congruence.
Qed.

(** [str(z)] of a negative [z] starts with a minus sign. *)
Lemma py_str_int_neg (z : Z) : z < 0 -> exists s, py_str_int z = String "-" s.
Proof.
  intros Hz. unfold py_str_int.
  replace (z <? 0) with true by (symmetry; apply Z.ltb_lt; lia).
  eexists. reflexivity.
Qed.

(** The only [ROTATE_<n>] constants of [PIL.Image] are those for 90, 180
    and 270 degrees. *)
Lemma image_constant_rotate (d : Z) (m : transpose_method) :
  image_constant ("ROTATE_" ++ py_str_int d) = Ok m -> In d [90; 180; 270].
Proof.
  assert (Hval : forall t, py_str_int d = t -> (0 <= d -> d = dec_val t 0) /\
                                              (d < 0 -> exists s, t = String "-" s)).
  { intros t Et. subst t. split.
    - intros Hd. symmetry. now apply py_str_int_nonneg.
    - apply py_str_int_neg. }
  unfold image_constant. simpl String.eqb.
  destruct (String.eqb_spec (py_str_int d) "90") as [E | _];
  [ | destruct (String.eqb_spec (py_str_int d) "180") as [E | _];
      [ | destruct (String.eqb_spec (py_str_int d) "270") as [E | _]]];
  intros Hm; try discriminate;
  destruct (Hval _ E) as [Hpos Hneg];
  (destruct (Z_lt_le_dec d 0) as [Hd | Hd];
   [destruct (Hneg Hd) as [s Hs]; discriminate | rewrite (Hpos Hd); simpl; tauto]).
Qed.

(** C10: a multiple of 90 other than 0, 90, 180 and 270 (such as -90, -180
    or 360) takes the transpose fast path and fails there: the constant
    [ROTATE_<degrees>] does not exist and [getattr] raises. *)
Theorem C10_fast_path_only_four_angles `{Pil} (im : image) (o : rotate_options) :
  degrees o mod 90 = 0 -> ~ In (degrees o) [0; 90; 180; 270] ->
  rotate_processor im o = Err AttributeError.
Proof.
  intros Hmod Hnot. unfold rotate_processor, rotate_process, rotate_prep. cbn [ro transposable].
  rewrite Hmod. cbn [Z.eqb].
  destruct (Z.eqb_spec (degrees o) 0) as [E | _]; [exfalso; apply Hnot; simpl; auto | ].
  destruct (image_constant ("ROTATE_" ++ py_str_int (degrees o))) as [m | e] eqn:Ec.
  - exfalso. apply image_constant_rotate in Ec. apply Hnot. simpl in *. tauto.
  - simpl. f_equal.
    unfold image_constant in Ec.
    repeat match type of Ec with
           | context [if ?b then _ else _] => destruct b
           end; congruence.
Qed.

(** C7 fails on the code: the rotate-crop operator on a multiple of 90
    outside 0, 90, 180 and 270 raises instead of returning the transposed
    image (the same lookup as in C10). *)
Theorem C7_rotate_crop_minus_90_raises `{Pil} (im : image) (pt : bool)
  (col : option (list Z)) (cm : string) :
  rotate_crop_processor im {| degrees := -90; extend := false; color := col;
                              preserve_transparency := pt; crop_mode := cm |} =
  Err AttributeError /\
  rotate_crop_processor im {| degrees := 360; extend := false; color := col;
                              preserve_transparency := pt; crop_mode := cm |} =
  Err AttributeError.
Proof. split; reflexivity. Qed.

(** ** The max-area strategy and the sign of the angle *)

Lemma abs_sin_deg_opp (d : Z) :
  Rabs (sin (IZR (- d) * PI / 180)) = Rabs (sin (IZR d * PI / 180)).
Proof.
  rewrite opp_IZR.
  replace (- IZR d * PI / 180)%R with (- (IZR d * PI / 180))%R by field.
  now rewrite sin_neg, Rabs_Ropp.
Qed.

Lemma abs_cos_deg_opp (d : Z) :
  Rabs (cos (IZR (- d) * PI / 180)) = Rabs (cos (IZR d * PI / 180)).
Proof.
  rewrite opp_IZR.
  replace (- IZR d * PI / 180)%R with (- (IZR d * PI / 180))%R by field.
  now rewrite cos_neg.
Qed.

(** C9: the max-area strategy only uses the absolute values of the sine and
    cosine of the raw angle, so it returns the same pair (or raises the same
    error) for [degrees] and [-degrees], for every input size. *)
Theorem C9_max_area_sign_symmetric (iw ih d : Z) (rotated : image) :
  get_rotated_rect_max_area (iw, ih) (- d) rotated =
  get_rotated_rect_max_area (iw, ih) d rotated.
Proof.
  unfold get_rotated_rect_max_area. cbv zeta.
  rewrite abs_sin_deg_opp, abs_cos_deg_opp. reflexivity.
Qed.

(** ** Sizes computed by [ResizeProcessor] *)

Lemma inject_Z_le' (x y : Z) : (inject_Z x <= inject_Z y)%Q <-> x <= y.
Proof. now rewrite <- Zle_Qle. Qed.

Lemma inject_Z_lt' (x y : Z) : (inject_Z x < inject_Z y)%Q <-> x < y.
Proof. now rewrite <- Zlt_Qlt. Qed.

Lemma Qltb_inject (a b : Z) : Qltb (inject_Z a) (inject_Z b) = (a <? b).
Proof.
  unfold Qltb. destruct (Z.ltb_spec a b) as [Hab | Hab].
  - destruct (Qle_bool (inject_Z b) (inject_Z a)) eqn:E; [ | reflexivity].
    apply Qle_bool_iff in E. rewrite inject_Z_le' in E. lia.
  - replace (Qle_bool (inject_Z b) (inject_Z a)) with true; [reflexivity | ].
    symmetry. apply Qle_bool_iff. rewrite inject_Z_le'. exact Hab.
Qed.

Lemma Qltb_iff (x y : Q) : Qltb x y = true <-> (x < y)%Q.
Proof.
  unfold Qltb. rewrite negb_true_iff. split.
  - intros E. apply Qnot_le_lt. intros Hle. apply Qle_bool_iff in Hle. congruence.
  - intros Hlt. destruct (Qle_bool y x) eqn:E; [ | reflexivity].
    apply Qle_bool_iff in E. exfalso. apply (Qlt_not_le x y); assumption.
Qed.

Lemma qdiv_ok (x y : Q) : ~ (y == 0)%Q -> qdiv x y = Ok (x / y)%Q.
Proof.
  intros Hy. unfold qdiv. destruct (Qeq_bool y 0) eqn:E; [ | reflexivity].
  apply Qeq_bool_iff in E. contradiction.
Qed.

Lemma inject_Z_pos_nonzero (z : Z) : 0 < z -> ~ (inject_Z z == 0)%Q.
Proof. intros Hz E. change 0%Q with (inject_Z 0) in E. rewrite inject_Z_injective in E. lia. Qed.

Lemma inject_Z_pos (z : Z) : 0 < z -> (0 < inject_Z z)%Q.
Proof. intros Hz. change 0%Q with (inject_Z 0). rewrite inject_Z_lt'; lia. Qed.

Lemma ratio_pos (a b : Z) : 0 < a -> 0 < b -> (0 < inject_Z a / inject_Z b)%Q.
Proof.
  intros Ha Hb. apply Qlt_shift_div_l; [now apply inject_Z_pos | ].
  rewrite Qmult_0_l. now apply inject_Z_pos.
Qed.

Lemma py_int_Z (z : Z) : py_int (inject_Z z) = z.
Proof. apply py_int_inject. reflexivity. Qed.

Lemma py_ceil_Z (z : Z) : py_ceil (inject_Z z) = z.
Proof. apply Qceiling_Z. Qed.

Lemma py_int_max1_div (a b c : Z) : 0 <= a -> 0 <= b -> 0 < c ->
  py_int (py_max1 (inject_Z a * inject_Z b / inject_Z c)) = Z.max (a * b / c) 1.
Proof.
  intros Ha Hb Hc.
  assert (E : (inject_Z a * inject_Z b / inject_Z c == inject_Z (a * b) / inject_Z c)%Q)
    by (now rewrite inject_Z_mult).
  assert (F : Qfloor (inject_Z a * inject_Z b / inject_Z c) = a * b / c)
    by (rewrite E; symmetry; apply Zdiv_Qdiv).
  assert (Hnn : (0 <= inject_Z a * inject_Z b / inject_Z c)%Q).
  { rewrite E. apply Qle_shift_div_l; [now apply inject_Z_pos | ].
    rewrite Qmult_0_l. change 0%Q with (inject_Z 0). rewrite inject_Z_le'. nia. }
  unfold py_max1. destruct (Qltb _ 1) eqn:L.
  - apply Qltb_iff in L. change (py_int 1) with 1.
    assert (Hf : (inject_Z (Qfloor (inject_Z a * inject_Z b / inject_Z c)) < 1)%Q)
      by (eapply Qle_lt_trans; [apply Qfloor_le | exact L]).
    change 1%Q with (inject_Z 1) in Hf. rewrite inject_Z_lt' in Hf. lia.
  - assert (L' : (1 <= inject_Z a * inject_Z b / inject_Z c)%Q).
    { apply Qnot_lt_le. intros Hlt. apply Qltb_iff in Hlt. congruence. }
    unfold py_int. replace (Qle_bool 0 _) with true
      by (symmetry; now apply Qle_bool_iff).
    apply Qfloor_resp_le in L'. change (Qfloor 1) with 1 in L'. lia.
Qed.

Ltac pos_nz := apply inject_Z_pos_nonzero; lia.

Lemma shrink_to_box_Z (iw ih bw bh : Z) :
  0 < iw -> 0 < ih -> 0 < bw -> 0 < bh ->
  shrink_to_box (inject_Z bw) (inject_Z bh) (inject_Z iw, inject_Z ih)
  = Ok (inject_Z (fst (shrink_Z iw ih bw bh)), inject_Z (snd (shrink_Z iw ih bw bh))).
Proof.
  intros Hiw Hih Hbw Hbh.
  unfold shrink_to_box, shrink_Z.
  rewrite Qltb_inject. destruct (Z.ltb_spec bw iw).
  - rewrite qdiv_ok by pos_nz. cbn [bind]. rewrite py_int_Z, py_int_max1_div by lia.
    rewrite Qltb_inject. destruct (Z.ltb_spec bh (Z.max (ih * bw / iw) 1)).
    + rewrite qdiv_ok by pos_nz. cbn [bind].
      rewrite py_int_Z, py_int_max1_div by lia. reflexivity.
    + reflexivity.
  - cbn [bind]. rewrite Qltb_inject. destruct (Z.ltb_spec bh ih).
    + rewrite qdiv_ok by pos_nz. cbn [bind].
      rewrite py_int_Z, py_int_max1_div by lia. reflexivity.
    + reflexivity.
Qed.

Lemma get_scaled_size_fit (iw ih bw bh : Z) :
  0 < iw -> 0 < ih -> 0 < bw -> 0 < bh ->
  get_scaled_size (iw, ih) (bw, bh) "fit" false = Ok (shrink_Z iw ih bw bh).
Proof.
  intros Hiw Hih Hbw Hbh.
  unfold get_scaled_size. cbn [fst snd].
  rewrite qdiv_ok by pos_nz. cbn [bind].
  rewrite shrink_to_box_Z by lia. cbn [bind negb String.eqb].
  destruct (shrink_Z iw ih bw bh). cbn. now rewrite !py_ceil_Z.
Qed.

Lemma Zdiv_lt_mul (a b c : Z) : 0 < c -> a / c < b -> a < b * c.
Proof.
  intros Hc H. destruct (Z_lt_le_dec a (b * c)) as [L | L]; [exact L | ].
  exfalso. rewrite Z.mul_comm in L. apply (Z.div_le_lower_bound a c b Hc) in L. lia.
Qed.

Lemma shrink_Z_short (iw ih bw bh : Z) :
  0 < iw -> 0 < ih -> 0 < bw -> 0 < bh ->
  bw <= fst (shrink_Z iw ih bw bh) -> snd (shrink_Z iw ih bw bh) < bh ->
  bw * ih <= bh * iw.
Proof.
  intros Hiw Hih Hbw Hbh. unfold shrink_Z.
  destruct (Z.ltb_spec bw iw).
  - destruct (Z.ltb_spec bh (Z.max (ih * bw / iw) 1)); cbn [fst snd]; [lia | ].
    intros _ Hlt. assert (ih * bw / iw < bh) by lia.
    apply Zdiv_lt_mul in H1; lia.
  - destruct (Z.ltb_spec bh ih); cbn [fst snd]; [lia | ]. nia.
Qed.

Lemma Qdiv_lt_mul (x y r : Q) : (0 < r)%Q -> (x / r < y)%Q -> (x <= y * r)%Q.
Proof.
  intros Hr H. apply Qnot_lt_le. intros L. apply (Qlt_not_le _ _ H).
  apply Qle_shift_div_l; [exact Hr | ]. now apply Qlt_le_weak.
Qed.

Lemma mul_ratio_ge (a b iw ih : Z) : 0 < ih -> a * ih <= b * iw ->
  (inject_Z a <= inject_Z b * (inject_Z iw / inject_Z ih))%Q.
Proof.
  intros Hih H.
  assert (E : (inject_Z b * (inject_Z iw / inject_Z ih)
               == inject_Z (b * iw) / inject_Z ih)%Q).
  { rewrite inject_Z_mult. field. pos_nz. }
  rewrite E. apply Qle_shift_div_l; [now apply inject_Z_pos | ].
  rewrite <- inject_Z_mult. now rewrite inject_Z_le'.
Qed.

Lemma enlarge_to_box_covers (iw ih w3 h3 bw bh : Z) :
  0 < iw -> 0 < ih -> 0 < bw -> 0 < bh ->
  (bw <= w3 -> h3 < bh -> bw * ih <= bh * iw) ->
  exists w h, enlarge_to_box (inject_Z iw / inject_Z ih) (inject_Z bw) (inject_Z bh)
                (inject_Z w3, inject_Z h3) = Ok (w, h)
              /\ (inject_Z bw <= w)%Q /\ (inject_Z bh <= h)%Q.
Proof.
  intros Hiw Hih Hbw Hbh K.
  assert (Har : (0 < inject_Z iw / inject_Z ih)%Q) by now apply ratio_pos.
  unfold enlarge_to_box. rewrite Qltb_inject. destruct (Z.ltb_spec w3 bw).
  - rewrite qdiv_ok by (intros E; rewrite E in Har; discriminate). cbn [bind].
    destruct (Qltb (inject_Z bw / (inject_Z iw / inject_Z ih)) (inject_Z bh)) eqn:L.
    + apply Qltb_iff in L. eexists _, _. split; [reflexivity | ].
      split; [now apply Qdiv_lt_mul | apply Qle_refl].
    + eexists _, _. split; [reflexivity | ]. split; [apply Qle_refl | ].
      apply Qnot_lt_le. intros Hlt. apply Qltb_iff in Hlt. congruence.
  - cbn [bind]. rewrite Qltb_inject. destruct (Z.ltb_spec h3 bh).
    + eexists _, _. split; [reflexivity | ].
      split; [apply mul_ratio_ge; auto | apply Qle_refl].
    + eexists _, _. split; [reflexivity | ]. now rewrite !inject_Z_le'.
Qed.

Lemma py_ceil_ge (z : Z) (q : Q) : (inject_Z z <= q)%Q -> z <= py_ceil q.
Proof.
  intros H. apply Qceiling_resp_le in H. now rewrite Qceiling_Z in H.
Qed.

Lemma get_scaled_size_crop (iw ih bw bh : Z) (f : string) :
  0 < iw -> 0 < ih -> 0 < bw -> 0 < bh -> f <> "fit" ->
  exists sw sh, get_scaled_size (iw, ih) (bw, bh) f false = Ok (sw, sh)
                /\ bw <= sw /\ bh <= sh.
Proof.
  intros Hiw Hih Hbw Hbh Hf.
  unfold get_scaled_size. cbn [fst snd].
  rewrite qdiv_ok by pos_nz. cbn [bind].
  rewrite shrink_to_box_Z by lia. cbn [bind].
  apply String.eqb_neq in Hf. rewrite Hf. cbn [negb].
  destruct (enlarge_to_box_covers iw ih (fst (shrink_Z iw ih bw bh))
              (snd (shrink_Z iw ih bw bh)) bw bh) as (w & h & E & Hw & Hh); auto.
  { now apply shrink_Z_short. }
  rewrite E. cbn [bind]. exists (py_ceil w), (py_ceil h).
  split; [reflexivity | split; now apply py_ceil_ge].
Qed.

Lemma div_bounds (a c : Z) : 0 < c -> c * (a / c) <= a < c * (a / c) + c.
Proof.
  intros Hc. pose proof (Z.div_mod a c ltac:(lia)).
  pose proof (Z.mod_pos_bound a c Hc). lia.
Qed.

Lemma shrink_Z_spec (iw ih bw bh : Z) :
  0 < iw -> 0 < ih -> 0 < bw -> 0 < bh ->
  let '(w, h) := shrink_Z iw ih bw bh in
  1 <= w <= bw /\ 1 <= h <= bh /\
  exists p q, 0 < p /\ 0 < q /\
    Z.abs (w * q - p * iw) <= q /\ Z.abs (h * q - p * ih) <= q.
Proof.
  intros Hiw Hih Hbw Hbh. unfold shrink_Z.
  destruct (Z.ltb_spec bw iw) as [Lw | Lw]; cbv beta iota zeta.
  - pose proof (div_bounds (ih * bw) iw Hiw) as Dd.
    assert (0 <= ih * bw / iw) by (apply Z.div_pos; lia).
    remember (ih * bw / iw) as d eqn:Ed. clear Ed.
    destruct (Z.ltb_spec bh (Z.max d 1)) as [Lh | Lh]; cbv beta iota zeta.
    + assert (2 <= d) by lia. replace (Z.max d 1) with d in * by lia.
      pose proof (div_bounds (bw * bh) d ltac:(lia)) as De.
      assert (0 <= bw * bh / d) by (apply Z.div_pos; lia).
      remember (bw * bh / d) as e eqn:Ee. clear Ee.
      assert (e < bw) by nia.
      split; [lia | ]. split; [lia | ].
      exists (bw * bh), (d * iw). split; [nia | ]. split; [nia | ].
      rewrite !Z.abs_le. destruct (Z.max_spec e 1) as [[? ->] | [? ->]].
      * split; split; nia.
      * split; split; nia.
    + split; [lia | ]. split; [lia | ].
      exists bw, iw. split; [lia | ]. split; [lia | ].
      rewrite !Z.abs_le. destruct (Z.max_spec d 1) as [[? ->] | [? ->]].
      * split; split; nia.
      * split; split; nia.
  - destruct (Z.ltb_spec bh ih) as [Lh | Lh]; cbv beta iota zeta.
    + pose proof (div_bounds (iw * bh) ih Hih) as Dd.
      assert (0 <= iw * bh / ih) by (apply Z.div_pos; lia).
      remember (iw * bh / ih) as d eqn:Ed. clear Ed.
      assert (d <= iw) by nia.
      split; [lia | ]. split; [lia | ].
      exists bh, ih. split; [lia | ]. split; [lia | ].
      rewrite !Z.abs_le. destruct (Z.max_spec d 1) as [[? ->] | [? ->]].
      * split; split; nia.
      * split; split; nia.
    + split; [lia | ]. split; [lia | ].
      exists 1, 1. rewrite !Z.abs_le. lia.
Qed.

(** ** Further properties of the processors and the engine *)

Lemma nth_error_map_seq {A} (f : nat -> A) (n k : nat) :
  (k < n)%nat -> nth_error (map f (seq 0 n)) k = Some (f k).
Proof.
  intros Hk. rewrite nth_error_map. now rewrite nth_error_seq, (proj2 (Nat.ltb_lt k n) Hk).
Qed.

Lemma get_pixel_tabulate (m : string) (w h : Z) (f : Z -> Z -> pixel) (x y : Z) :
  0 <= x < w -> 0 <= y < h ->
  get_pixel (mkImage m w h (tabulate w h f)) x y = f x y.
Proof.
  intros Hx Hy. unfold get_pixel. cbn [img_width img_height pixels].
  replace ((0 <=? x) && (x <? w) && (0 <=? y) && (y <? h)) with true
    by (symmetry; repeat rewrite andb_true_iff; repeat split; lia).
  unfold tabulate, zrange. rewrite map_map, nth_error_map_seq by lia.
  rewrite map_map, nth_error_map_seq by lia. f_equal; lia.
Qed.

Lemma tabulate_ext (w h : Z) (f g : Z -> Z -> pixel) :
  (forall x y, 0 <= x < w -> 0 <= y < h -> f x y = g x y) ->
  tabulate w h f = tabulate w h g.
Proof.
  intros E. unfold tabulate, zrange. apply map_ext_in. intros y Hy.
  apply map_ext_in. intros x Hx. apply in_map_iff in Hx, Hy.
  destruct Hx as (i & <- & Hi). destruct Hy as (j & <- & Hj).
  apply in_seq in Hi, Hj. apply E; lia.
Qed.

Lemma tabulate_pixels (im : image) :
  well_formed im ->
  tabulate (img_width im) (img_height im) (fun x y => get_pixel im x y) = pixels im.
Proof.
  intros Hwf. rewrite <- (tabulate_get_pixel im Hwf).
  apply tabulate_ext. intros x y _ _. now rewrite !Z.add_0_r.
Qed.

Lemma image_eta (im : image) :
  im = mkImage (mode im) (img_width im) (img_height im) (pixels im).
Proof. now destruct im. Qed.

Ltac tab_inv :=
  apply tabulate_ext; intros ? ? ? ?;
  rewrite get_pixel_tabulate by lia; f_equal; lia.

Lemma transpose_twice (im : image) (m1 m2 : transpose_method) :
  well_formed im ->
  In (m1, m2) [(FLIP_LEFT_RIGHT, FLIP_LEFT_RIGHT); (FLIP_TOP_BOTTOM, FLIP_TOP_BOTTOM);
               (ROTATE_90, ROTATE_270); (ROTATE_270, ROTATE_90);
               (ROTATE_180, ROTATE_180)] ->
  transpose (transpose im m1) m2 = im.
Proof.
  intros Hwf Hin. rewrite (image_eta im) at 2. rewrite <- (tabulate_pixels im Hwf).
  destruct Hwf as [Hw [Hh _]].
  cbn in Hin; repeat destruct Hin as [Hin | Hin]; try contradiction;
  injection Hin as <- <-; cbn [transpose img_width img_height mode]; f_equal; tab_inv.
Qed.

(** Flipping twice with the same options gives back the image: each flip
    method of [FlipProcessor] is an involution. *)
Theorem X_flip_involutive (im : image) (o : flip_options) :
  well_formed im -> flip_processor (flip_processor im o) o = im.
Proof.
  intros Hwf. unfold flip_processor.
  destruct (negb (str_truthy (flip o))); [reflexivity | ].
  destruct (str_in (flip o) ["x"; "h"]); apply transpose_twice; cbn; tauto.
Qed.

Lemma rotate_processor_transpose `{Pil} (im : image) (o : rotate_options)
  (m : transpose_method) :
  In (degrees o, m) [(90, ROTATE_90); (180, ROTATE_180); (270, ROTATE_270)] ->
  rotate_processor im o = Ok (transpose im m).
Proof.
  destruct o as [d e c p cm]. cbn [degrees].
  intros Hin; cbn in Hin; repeat destruct Hin as [Hin | Hin]; try contradiction;
  injection Hin as <- <-; reflexivity.
Qed.

(** Rotating by 90 then 270 degrees, 270 then 90, or 180 then 180 through
    the transpose fast path gives back the image. *)
Theorem X_rotate_round_trip `{Pil} (im : image) (o1 o2 : rotate_options) :
  well_formed im ->
  In (degrees o1, degrees o2) [(90, 270); (270, 90); (180, 180)] ->
  (r <- rotate_processor im o1 ;; rotate_processor r o2) = Ok im.
Proof.
  intros Hwf Hin.
  cbn in Hin; repeat destruct Hin as [Hin | Hin]; try contradiction;
  injection Hin as E1 E2.
  - rewrite (rotate_processor_transpose im o1 ROTATE_90) by (rewrite E1; cbn; tauto).
    cbn [bind]. rewrite (rotate_processor_transpose _ o2 ROTATE_270) by (rewrite E2; cbn; tauto).
    f_equal. apply transpose_twice; cbn; tauto.
  - rewrite (rotate_processor_transpose im o1 ROTATE_270) by (rewrite E1; cbn; tauto).
    cbn [bind]. rewrite (rotate_processor_transpose _ o2 ROTATE_90) by (rewrite E2; cbn; tauto).
    f_equal. apply transpose_twice; cbn; tauto.
  - rewrite (rotate_processor_transpose im o1 ROTATE_180) by (rewrite E1; cbn; tauto).
    cbn [bind]. rewrite (rotate_processor_transpose _ o2 ROTATE_180) by (rewrite E2; cbn; tauto).
    f_equal. apply transpose_twice; cbn; tauto.
Qed.
Lemma quot2_bounds (n : Z) :
  (0 <= n -> 2 * Z.quot n 2 <= n <= 2 * Z.quot n 2 + 1) /\
  (n < 0 -> 2 * Z.quot n 2 - 1 <= n <= 2 * Z.quot n 2).
Proof.
  split; intros Hn.
  - rewrite Z.quot_div_nonneg by lia. pose proof (Z.div_mod n 2). pose proof (Z.mod_pos_bound n 2). lia.
  - rewrite <- (Z.opp_involutive n) at 1 4. rewrite Z.quot_opp_l, Z.quot_div_nonneg by lia.
    pose proof (Z.div_mod (- n) 2). pose proof (Z.mod_pos_bound (- n) 2). lia.
Qed.

Lemma py_int_comp (p q : Q) : (p == q)%Q -> py_int p = py_int q.
Proof.
  intros E. unfold py_int.
  assert (B : Qle_bool 0 p = Qle_bool 0 q).
  { destruct (Qle_bool 0 q) eqn:Bq.
    - apply Qle_bool_iff. rewrite E. now apply Qle_bool_iff.
    - destruct (Qle_bool 0 p) eqn:Bp; [ | reflexivity].
      apply Qle_bool_iff in Bp. rewrite E in Bp. apply Qle_bool_iff in Bp. congruence. }
  rewrite B. destruct (Qle_bool 0 q).
  - now apply Qfloor_comp.
  - f_equal. apply Qfloor_comp. now rewrite E.
Qed.

Lemma py_int_half (n : Z) : py_int (inject_Z n * (1 # 2)) = Z.quot n 2.
Proof.
  assert (E : (inject_Z n * (1 # 2) == inject_Z n / inject_Z 2)%Q) by reflexivity.
  rewrite (py_int_comp _ _ E). unfold py_int.
  destruct (Z_lt_le_dec n 0) as [Hn | Hn].
  - replace (Qle_bool 0 (inject_Z n / inject_Z 2)) with false.
    + assert (E' : (- (inject_Z n / inject_Z 2) == inject_Z (- n) / inject_Z 2)%Q)
        by (rewrite inject_Z_opp; field).
      rewrite (Qfloor_comp _ _ E'), <- Zdiv_Qdiv.
      rewrite <- (Z.opp_involutive n) at 2. rewrite Z.quot_opp_l by lia.
      now rewrite Z.quot_div_nonneg by lia.
    + symmetry. apply not_true_iff_false. rewrite Qle_bool_iff. intros L.
      assert (L2 : (0 * inject_Z 2 <= inject_Z n / inject_Z 2 * inject_Z 2)%Q)
        by (apply Qmult_le_compat_r; [exact L | unfold Qle; simpl; lia]).
      rewrite Qmult_0_l in L2.
      setoid_replace (inject_Z n / inject_Z 2 * inject_Z 2)%Q with (inject_Z n) in L2
        by (field; unfold Qeq; simpl; lia).
      change 0%Q with (inject_Z 0) in L2. rewrite <- Zle_Qle in L2. lia.
  - replace (Qle_bool 0 (inject_Z n / inject_Z 2)) with true.
    + rewrite <- Zdiv_Qdiv. symmetry. apply Z.quot_div_nonneg; lia.
    + symmetry. apply Qle_bool_iff. apply Qle_shift_div_l; [reflexivity | ].
      rewrite Qmult_0_l. change 0%Q with (inject_Z 0). rewrite <- Zle_Qle. lia.
Qed.

(** The corner coordinate [int(c - b * 0.5)] of [get_crop_box]. *)
Lemma py_int_center (c b : Z) :
  py_int (inject_Z c - inject_Z b * (1 # 2)) = Z.quot (2 * c - b) 2.
Proof.
  rewrite <- py_int_half. apply py_int_comp.
  unfold Z.sub. rewrite inject_Z_plus, inject_Z_opp, inject_Z_mult. field.
Qed.

Lemma clamp_min (a b : Z) : (if a >? b then b else a) = Z.min a b.
Proof. rewrite Z.gtb_ltb. destruct (Z.ltb_spec b a); lia. Qed.

(** [get_crop_box] with its corner written in integers. *)
Lemma get_crop_box_eq (im : image) (width height : Z) (anchor : string) :
  get_crop_box im width height anchor =
    xy <- (if str_in anchor ["center"; "crop"; "fill"] then
             Ok (Z.quot (2 * Z.quot (img_width im) 2 - Z.min width (img_width im)) 2,
                 Z.quot (2 * Z.quot (img_height im) 2 - Z.min height (img_height im)) 2)
           else if String.eqb anchor "top" then
             Ok (Z.quot (2 * Z.quot (img_width im) 2 - Z.min width (img_width im)) 2, 0)
           else if String.eqb anchor "left" then
             Ok (0, Z.quot (2 * Z.quot (img_height im) 2 - Z.min height (img_height im)) 2)
           else if String.eqb anchor "right" then
             Ok (img_width im - Z.min width (img_width im),
                 Z.quot (2 * Z.quot (img_height im) 2 - Z.min height (img_height im)) 2)
           else if String.eqb anchor "bottom" then
             Ok (Z.quot (2 * Z.quot (img_width im) 2 - Z.min width (img_width im)) 2,
                 img_height im - Z.min height (img_height im))
           else Err ValueError) ;;
    let '(x1, y1) := xy in
    Ok (x1, y1, x1 + Z.min width (img_width im), y1 + Z.min height (img_height im)).
Proof.
  unfold get_crop_box. cbv zeta. rewrite !clamp_min, !py_int_half, !py_int_center.
  reflexivity.
Qed.

Lemma get_crop_box_supported (im : image) (width height : Z) (anchor : string) :
  str_in anchor anchors = true ->
  exists x1 y1, get_crop_box im width height anchor =
    Ok (x1, y1, x1 + Z.min width (img_width im), y1 + Z.min height (img_height im)).
Proof.
  intros Ha. rewrite get_crop_box_eq. unfold anchors, str_in in *. cbn [existsb] in *.
  destruct (String.eqb anchor "center"), (String.eqb anchor "crop"), (String.eqb anchor "fill"),
    (String.eqb anchor "top"), (String.eqb anchor "left"), (String.eqb anchor "right"), (String.eqb anchor "bottom");
    cbn in Ha; try discriminate; cbn [orb bind]; eexists _, _; reflexivity.
Qed.

(** For non-negative sizes, every box [get_crop_box] yields lies inside the
    image. *)
Theorem X_get_crop_box_inside (im : image) (width height : Z) (anchor : string)
  (x1 y1 x2 y2 : Z) :
  0 <= width -> 0 <= height -> 0 <= img_width im -> 0 <= img_height im ->
  get_crop_box im width height anchor = Ok (x1, y1, x2, y2) ->
  0 <= x1 <= x2 /\ x2 <= img_width im /\ 0 <= y1 <= y2 /\ y2 <= img_height im.
Proof.
  intros Hw Hh Hiw Hih. rewrite get_crop_box_eq.
  pose proof (quot2_bounds (img_width im)). pose proof (quot2_bounds (img_height im)).
  pose proof (quot2_bounds (2 * Z.quot (img_width im) 2 - Z.min width (img_width im))).
  pose proof (quot2_bounds (2 * Z.quot (img_height im) 2 - Z.min height (img_height im))).
  remember (Z.quot (2 * Z.quot (img_width im) 2 - Z.min width (img_width im)) 2) as qx.
  remember (Z.quot (2 * Z.quot (img_height im) 2 - Z.min height (img_height im)) 2) as qy.
  clear Heqqx Heqqy.
  destruct (str_in anchor ["center"; "crop"; "fill"]);
    [ | destruct (String.eqb anchor "top"); [ | destruct (String.eqb anchor "left");
      [ | destruct (String.eqb anchor "right"); [ | destruct (String.eqb anchor "bottom")]]]];
    unfold bind; cbv beta iota; intros E; try discriminate; injection E as <- <- <- <-; lia.
Qed.

Lemma crop_ok (im out : image) (x1 y1 x2 y2 : Z) :
  crop im (x1, y1, x2, y2) = Ok out ->
  x1 <= x2 /\ y1 <= y2 /\ mode out = mode im /\ size out = (x2 - x1, y2 - y1) /\
  forall x y, 0 <= x < x2 - x1 -> 0 <= y < y2 - y1 ->
    get_pixel out x y = get_pixel im (x + x1) (y + y1).
Proof.
  unfold crop. destruct (Z.ltb_spec x2 x1), (Z.ltb_spec y2 y1); cbn [orb];
    intros E; try discriminate.
  injection E as <-. split; [lia | ]. split; [lia | ]. split; [reflexivity | ].
  split; [reflexivity | ]. intros x y Hx Hy. now rewrite get_pixel_tabulate.
Qed.

Lemma crop_get_crop_box_pixels (w h l t r b : Z) :
  crop_get_crop_box (w, h) (crop_opts PyList [l; t; r; b] false)
  = Ok (l, t, w - r, h - b).
Proof.
  cbn -[py_int inject_Z Qminus]. rewrite !py_int_Z.
  do 3 f_equal; apply py_int_inject; unfold Z.sub;
    rewrite inject_Z_plus, inject_Z_opp; reflexivity.
Qed.

(** A pixel crop box [(l, t, r, b)] of insets crops the image to
    [(w - r - l, h - b - t)], keeping its mode and shifting its pixels by
    [(l, t)]. *)
Theorem X_crop_pixel_box (im : image) (l t r b : Z) :
  l <= img_width im - r -> t <= img_height im - b ->
  exists out,
    crop_processor im (crop_opts PyList [l; t; r; b] false) = Ok out /\
    mode out = mode im /\
    size out = (img_width im - r - l, img_height im - b - t) /\
    forall x y, 0 <= x < img_width im - r - l -> 0 <= y < img_height im - b - t ->
      get_pixel out x y = get_pixel im (x + l) (y + t).
Proof.
  intros Hx Hy. unfold crop_processor. change (size im) with (img_width im, img_height im).
  rewrite crop_get_crop_box_pixels. cbn [bind].
  destruct (crop im (l, t, img_width im - r, img_height im - b)) as [out | e] eqn:E.
  - apply crop_ok in E as (_ & _ & Hm & Hs & Hp). exists out. split; [reflexivity | ].
    split; [exact Hm | ]. split; [exact Hs | exact Hp].
  - exfalso. unfold crop in E.
    destruct (Z.ltb_spec (img_width im - r) l), (Z.ltb_spec (img_height im - b) t);
      cbn in E; try lia; discriminate.
Qed.

(** A [None] in a tuple crop box makes [CropProcessor] raise [TypeError]:
    only a list box has its [None]s replaced. *)
Theorem X_crop_tuple_with_none (im : image) (l : list (option Q)) (percent : bool) :
  existsb is_none l = true ->
  crop_processor im {| crop_box := Some (PyTuple l); crop_percent := percent |}
  = Err TypeError.
Proof.
  intros H. destruct l as [ | v l]; [discriminate | ].
  unfold crop_processor, crop_get_crop_box. change (size im) with (img_width im, img_height im).
  cbn [crop_box seq_items List.length Nat.eqb negb bind].
  unfold is_none in H. rewrite H. reflexivity.
Qed.

Lemma crop_full (im : image) :
  well_formed im -> crop im (0, 0, img_width im, img_height im) = Ok im.
Proof.
  intros Hwf. unfold crop. rewrite !Z.sub_0_r.
  replace (img_width im <? 0) with false by (symmetry; apply Z.ltb_ge; apply Hwf).
  replace (img_height im <? 0) with false by (symmetry; apply Z.ltb_ge; apply Hwf).
  cbn [orb]. rewrite tabulate_get_pixel by exact Hwf. now destruct im.
Qed.

(** Without a crop box, or with an empty one, [CropProcessor] returns the
    image unchanged. *)
Theorem X_crop_no_box_identity (im : image) (box : option py_seq) (percent : bool) :
  well_formed im -> In box [None; Some (PyList []); Some (PyTuple [])] ->
  crop_processor im {| crop_box := box; crop_percent := percent |} = Ok im.
Proof.
  intros Hwf Hb. unfold crop_processor.
  replace (crop_get_crop_box (size im) {| crop_box := box; crop_percent := percent |})
    with (Ok (0, 0, img_width im, img_height im)).
  { cbn [bind]. now apply crop_full. }
  symmetry. change (size im) with (img_width im, img_height im).
  cbn in Hb; repeat destruct Hb as [Hb | Hb]; try contradiction; subst box;
    destruct percent; cbn -[py_int Qmult Qdiv Qminus inject_Z];
    repeat f_equal; apply py_int_inject; field.
Qed.

(** A non-empty crop box with fewer than four entries makes [CropProcessor]
    raise [IndexError]. *)
Theorem X_crop_short_box (im : image) (l : list (option Q)) (percent : bool) :
  (0 < List.length l < 4)%nat ->
  crop_processor im {| crop_box := Some (PyList l); crop_percent := percent |}
  = Err IndexError.
Proof.
  intros Hl. destruct l as [ | v1 [ | v2 [ | v3 [ | v4 l]]]]; cbn in Hl; try lia;
    reflexivity.
Qed.

Lemma rotate_not_transposable (o : rotate_options) :
  degrees o mod 90 <> 0 -> Z.eqb (degrees o mod 90) 0 = false.
Proof. intros H. now apply Z.eqb_neq. Qed.

(** With a background colour, a non-right-angle rotation yields an RGBA image
    exactly when transparency is preserved and the colour's alpha is not
    255; otherwise the source's mode. *)
Theorem X_rotate_color_mode `{Pil} (im out : image) (o : rotate_options) (col : list Z) :
  (forall i d e, mode (rotate_bicubic i d e) = mode i) ->
  degrees o mod 90 <> 0 -> color o = Some col -> col <> [] ->
  rotate_processor im o = Ok out ->
  mode out = (if preserve_transparency o && negb (Z.eqb (nth 3 col 0) 255)
              then "RGBA" else mode im).
Proof.
  intros Hrot Hd Hc Hne E. unfold rotate_processor, rotate_process, rotate_prep in E.
  cbn [ro transposable] in E. rewrite rotate_not_transposable in E by exact Hd.
  rewrite Hc in E. destruct col as [ | c0 col]; [contradiction | ].
  destruct (preserve_transparency o); cbn [negb andb bind] in *.
  - unfold py_index_Z in E. destruct (nth_error (c0 :: col) 3) as [a | ] eqn:N;
      [ | discriminate].
    rewrite (nth_error_nth _ _ 0 N).
    cbn [bind] in E. destruct (Z.eqb a 255); cbn [negb]; injection E as <-; [reflexivity | ].
    cbn. apply Hrot.
  - injection E as <-. reflexivity.
Qed.

(** A crop mode other than [aspect_ratio] and [max_area] makes a
    non-right-angle [RotateCropProcessor] raise [AttributeError]. *)
Theorem X_rotate_crop_unknown_mode `{Pil} (im : image) (o : rotate_options) :
  degrees o mod 90 <> 0 -> ~ In (crop_mode o) ["aspect_ratio"; "max_area"] ->
  rotate_crop_processor im o = Err AttributeError.
Proof.
  intros Hd Hm. unfold rotate_crop_processor, rotate_crop_process, rotate_crop_prep.
  unfold rotate_prep. cbn [ro transposable degrees crop_mode].
  rewrite rotate_not_transposable by exact Hd.
  unfold rotate_process. cbn [ro transposable color bind].
  unfold rotated_rect_method.
  destruct (String.eqb_spec (crop_mode o) "aspect_ratio"); [rewrite e in Hm; cbn in Hm; tauto | ].
  destruct (String.eqb_spec (crop_mode o) "max_area"); [rewrite e in Hm; cbn in Hm; tauto | ].
  reflexivity.
Qed.

(** An image of height zero makes [ResizeProcessor] raise
    [ZeroDivisionError] (computing the aspect ratio). *)
Theorem X_resize_zero_height `{Pil} (im : image) (o : resize_options) :
  img_height im = 0 -> resize_processor im o = Err ZeroDivisionError.
Proof.
  intros Hh. unfold resize_processor. destruct (resize_prep im o) as [bw bh].
  unfold get_scaled_size. change (size im) with (img_width im, img_height im).
  cbn [fst snd]. rewrite Hh. reflexivity.
Qed.

Lemma Qltb_false (x y : Q) : Qltb x y = false -> (y <= x)%Q.
Proof.
  intros E. apply Qnot_lt_le. intros L. apply Qltb_iff in L. congruence.
Qed.

Lemma Qpos_nonzero (q : Q) : (0 < q)%Q -> ~ (q == 0)%Q.
Proof. intros H E. rewrite E in H. discriminate. Qed.

Lemma py_max1_ge (y : Q) : (1 <= py_max1 y)%Q /\ (y <= py_max1 y)%Q.
Proof.
  unfold py_max1. destruct (Qltb y 1) eqn:E.
  - apply Qltb_iff in E. split; [apply Qle_refl | now apply Qlt_le_weak].
  - apply Qltb_false in E. split; [exact E | apply Qle_refl].
Qed.

Lemma py_int_ge1 (m : Q) : (1 <= m)%Q -> py_int m = Qfloor m /\ 1 <= Qfloor m.
Proof.
  intros H. unfold py_int.
  replace (Qle_bool 0 m) with true
    by (symmetry; apply Qle_bool_iff; eapply Qle_trans; [ | exact H]; discriminate).
  split; [reflexivity | ]. apply Qfloor_resp_le in H. exact H.
Qed.

Lemma py_int_max1_bounds (y : Q) :
  1 <= py_int (py_max1 y) /\
  (inject_Z (py_int (py_max1 y)) <= py_max1 y)%Q /\
  (py_max1 y < inject_Z (py_int (py_max1 y) + 1))%Q.
Proof.
  destruct (py_max1_ge y) as [H1 _]. destruct (py_int_ge1 _ H1) as [-> H2].
  split; [exact H2 | ]. split; [apply Qfloor_le | apply Qlt_floor].
Qed.

Lemma py_int_max1_le (y : Q) (n : Z) :
  1 <= n -> (y <= inject_Z n)%Q -> py_int (py_max1 y) <= n.
Proof.
  intros Hn Hy. destruct (py_int_max1_bounds y) as (_ & H & _).
  rewrite <- inject_Z_le'. eapply Qle_trans; [exact H | ].
  unfold py_max1. destruct (Qltb y 1); [ | exact Hy].
  change 1%Q with (inject_Z 1). now rewrite inject_Z_le'.
Qed.

Lemma py_int_max1_lt (y : Q) (n : Z) : py_int (py_max1 y) < n -> (y < inject_Z n)%Q.
Proof.
  intros Hn. destruct (py_int_max1_bounds y) as (_ & _ & H).
  destruct (py_max1_ge y) as [_ Hy].
  eapply Qle_lt_trans; [exact Hy | ]. eapply Qlt_le_trans; [exact H | ].
  rewrite inject_Z_le'. lia.
Qed.

Lemma inject_Z_ge1 (n : Z) : 1 <= n -> (0 < inject_Z n)%Q.
Proof. intros H. apply inject_Z_pos. lia. Qed.

(** The "upscale if necessary" step reaches the box and keeps the ratio. *)
Lemma enlarge_to_box_upscale (ar w h : Q) (bw bh : Z) :
  (0 < ar)%Q -> (0 < h)%Q -> (w == h * ar)%Q -> 0 < bw -> 0 < bh ->
  exists w1 h1, enlarge_to_box ar (inject_Z bw) (inject_Z bh) (w, h) = Ok (w1, h1) /\
    (inject_Z bw <= w1)%Q /\ (inject_Z bh <= h1)%Q /\ (w1 == h1 * ar)%Q /\ (0 < h1)%Q.
Proof.
  intros Har Hh Hw Hbw Hbh. pose proof (inject_Z_pos bw Hbw). pose proof (inject_Z_pos bh Hbh).
  unfold enlarge_to_box. destruct (Qltb w (inject_Z bw)) eqn:E1.
  - apply Qltb_iff in E1. rewrite qdiv_ok by (now apply Qpos_nonzero). cbn [bind].
    destruct (Qltb (inject_Z bw / ar) (inject_Z bh)) eqn:E2.
    + apply Qltb_iff in E2. eexists _, _. split; [reflexivity | ].
      split; [now apply Qdiv_lt_mul | ]. split; [apply Qle_refl | ].
      split; [reflexivity | assumption].
    + apply Qltb_false in E2. eexists _, _. split; [reflexivity | ].
      split; [apply Qle_refl | ]. split; [exact E2 | ].
      split; [field; now apply Qpos_nonzero | ].
      apply Qlt_shift_div_l; [exact Har | ]. now rewrite Qmult_0_l.
  - apply Qltb_false in E1. cbn [bind]. destruct (Qltb h (inject_Z bh)) eqn:E2.
    + apply Qltb_iff in E2. eexists _, _. split; [reflexivity | ].
      split; [ | split; [apply Qle_refl | split; [reflexivity | assumption]]].
      eapply Qle_trans; [exact E1 | ]. rewrite Hw.
      apply Qmult_le_compat_r; [now apply Qlt_le_weak | now apply Qlt_le_weak].
    + apply Qltb_false in E2. eexists _, _. split; [reflexivity | ].
      split; [exact E1 | ]. split; [exact E2 | ]. split; [exact Hw | exact Hh].
Qed.

(** The "fit into bounding box" step on a size of ratio [ar]. *)
Lemma shrink_to_box_Q (ar w h : Q) (bw bh : Z) :
  (0 < ar)%Q -> (0 < h)%Q -> (w == h * ar)%Q -> 0 < bw -> 0 < bh ->
  exists w2 h2, shrink_to_box (inject_Z bw) (inject_Z bh) (w, h) = Ok (w2, h2) /\
    (0 < w2)%Q /\ (0 < h2)%Q /\ (w2 <= inject_Z bw)%Q /\ (h2 <= inject_Z bh)%Q /\
    ((inject_Z bw <= w)%Q -> (inject_Z bh <= h)%Q ->
       (w2 == inject_Z bw)%Q \/ (h2 == inject_Z bh)%Q) /\
    ((inject_Z bw <= w2)%Q -> (h2 < inject_Z bh)%Q ->
       (inject_Z bw <= inject_Z bh * ar)%Q).
Proof.
  intros Har Hh Hw Hbw Hbh.
  pose proof (inject_Z_pos bw Hbw) as Pbw. pose proof (inject_Z_pos bh Hbh) as Pbh.
  assert (Hw0 : (0 < w)%Q) by (rewrite Hw; now apply Qmult_lt_0_compat).
  unfold shrink_to_box. destruct (Qltb (inject_Z bw) w) eqn:E1.
  - apply Qltb_iff in E1. rewrite qdiv_ok by (now apply Qpos_nonzero). cbn [bind].
    rewrite py_int_Z.
    destruct (py_int_max1_bounds (h * inject_Z bw / w)) as (Hk1 & _ & _).
    remember (py_int (py_max1 (h * inject_Z bw / w))) as k eqn:Ek.
    destruct (Qltb (inject_Z bh) (inject_Z k)) eqn:E2.
    + apply Qltb_iff in E2. rewrite inject_Z_lt' in E2.
      rewrite qdiv_ok by (apply Qpos_nonzero, inject_Z_pos; lia). cbn [bind].
      rewrite py_int_Z. eexists _, _. split; [reflexivity | ].
      destruct (py_int_max1_bounds (inject_Z bw * inject_Z bh / inject_Z k)) as (Hj1 & _ & _).
      split; [apply inject_Z_pos; lia | ]. split; [exact Pbh | ].
      split.
      { rewrite inject_Z_le'. apply py_int_max1_le; [lia | ].
        apply Qle_shift_div_r; [apply inject_Z_pos; lia | ].
        rewrite <- !inject_Z_mult, inject_Z_le'. nia. }
      split; [apply Qle_refl | ]. split; [intros; now right | ].
      intros _ L. exfalso. exact (Qlt_irrefl _ L).
    + apply Qltb_false in E2. eexists _, _. split; [reflexivity | ].
      split; [exact Pbw | ]. split; [apply inject_Z_pos; lia | ].
      split; [apply Qle_refl | ]. split; [exact E2 | ]. split; [intros; now left | ].
      intros _ L. rewrite inject_Z_lt' in L. rewrite Ek in L.
      apply py_int_max1_lt in L.
      assert (R : (h * inject_Z bw / w == inject_Z bw / ar)%Q).
      { rewrite Hw. field. split; now apply Qpos_nonzero. }
      rewrite R in L. now apply Qdiv_lt_mul.
  - apply Qltb_false in E1. cbn [bind]. destruct (Qltb (inject_Z bh) h) eqn:E2.
    + apply Qltb_iff in E2. rewrite qdiv_ok by (now apply Qpos_nonzero). cbn [bind].
      rewrite py_int_Z. eexists _, _. split; [reflexivity | ].
      destruct (py_int_max1_bounds (w * inject_Z bh / h)) as (Hj1 & _ & _).
      split; [apply inject_Z_pos; lia | ]. split; [exact Pbh | ].
      split.
      { rewrite inject_Z_le'. apply py_int_max1_le; [lia | ].
        apply Qle_shift_div_r; [exact Hh | ]. eapply Qle_trans.
        - apply Qmult_le_l; [exact Hw0 | ]. apply Qlt_le_weak. exact E2.
        - apply Qmult_le_compat_r; [exact E1 | now apply Qlt_le_weak]. }
      split; [apply Qle_refl | ]. split; [intros; now right | ].
      intros _ L. exfalso. exact (Qlt_irrefl _ L).
    + apply Qltb_false in E2. eexists _, _. split; [reflexivity | ].
      split; [exact Hw0 | ]. split; [exact Hh | ]. split; [exact E1 | ].
      split; [exact E2 | ]. split.
      { intros L _. left. now apply Qle_antisym. }
      intros L L2. eapply Qle_trans; [exact L | ]. rewrite Hw.
      apply Qmult_le_compat_r; [exact E2 | now apply Qlt_le_weak].
Qed.

Lemma enlarge_to_box_covers_Q (ar w h : Q) (bw bh : Z) :
  (0 < ar)%Q -> 0 < bw -> 0 < bh ->
  ((inject_Z bw <= w)%Q -> (h < inject_Z bh)%Q -> (inject_Z bw <= inject_Z bh * ar)%Q) ->
  exists w' h', enlarge_to_box ar (inject_Z bw) (inject_Z bh) (w, h) = Ok (w', h') /\
    (inject_Z bw <= w')%Q /\ (inject_Z bh <= h')%Q.
Proof.
  intros Har Hbw Hbh K. unfold enlarge_to_box.
  destruct (Qltb w (inject_Z bw)) eqn:E1.
  - rewrite qdiv_ok by (now apply Qpos_nonzero). cbn [bind].
    destruct (Qltb (inject_Z bw / ar) (inject_Z bh)) eqn:L.
    + apply Qltb_iff in L. eexists _, _. split; [reflexivity | ].
      split; [now apply Qdiv_lt_mul | apply Qle_refl].
    + apply Qltb_false in L. eexists _, _. split; [reflexivity | ].
      split; [apply Qle_refl | exact L].
  - apply Qltb_false in E1. cbn [bind]. destruct (Qltb h (inject_Z bh)) eqn:E2.
    + apply Qltb_iff in E2. eexists _, _. split; [reflexivity | ].
      split; [now apply K | apply Qle_refl].
    + apply Qltb_false in E2. eexists _, _. split; [reflexivity | ]. now split.
Qed.

Lemma py_ceil_pos (q : Q) : (0 < q)%Q -> 1 <= py_ceil q.
Proof.
  intros H. unfold py_ceil. pose proof (Qle_ceiling q) as C.
  assert (P : (inject_Z 0 < inject_Z (Qceiling q))%Q) by (eapply Qlt_le_trans; [exact H | exact C]).
  rewrite inject_Z_lt' in P. lia.
Qed.

Lemma py_ceil_le (q : Q) (n : Z) : (q <= inject_Z n)%Q -> py_ceil q <= n.
Proof. intros H. apply Qceiling_resp_le in H. now rewrite Qceiling_Z in H. Qed.

Lemma py_ceil_eq (q : Q) (n : Z) : (q == inject_Z n)%Q -> py_ceil q = n.
Proof. intros H. unfold py_ceil. rewrite (Qceiling_comp _ _ H). apply Qceiling_Z. Qed.

Lemma ratio_eq (iw ih : Z) : 0 < ih ->
  (inject_Z iw == inject_Z ih * (inject_Z iw / inject_Z ih))%Q.
Proof. intros H. field. now apply inject_Z_pos_nonzero. Qed.

Lemma get_scaled_size_fit_up (iw ih bw bh : Z) :
  0 < iw -> 0 < ih -> 0 < bw -> 0 < bh ->
  exists sw sh, get_scaled_size (iw, ih) (bw, bh) "fit" true = Ok (sw, sh) /\
    1 <= sw <= bw /\ 1 <= sh <= bh /\ (sw = bw \/ sh = bh).
Proof.
  intros Hiw Hih Hbw Hbh.
  pose proof (ratio_pos iw ih Hiw Hih) as Har.
  unfold get_scaled_size. cbn [fst snd].
  rewrite qdiv_ok by pos_nz. cbn [bind].
  destruct (enlarge_to_box_upscale (inject_Z iw / inject_Z ih) (inject_Z iw) (inject_Z ih) bw bh)
    as (w1 & h1 & E1 & Hw1 & Hh1 & R1 & P1); auto.
  { now apply inject_Z_pos. }
  { now apply ratio_eq. }
  rewrite E1. cbn [bind].
  destruct (shrink_to_box_Q (inject_Z iw / inject_Z ih) w1 h1 bw bh)
    as (w2 & h2 & E2 & Pw & Ph & Lw & Lh & T & _); auto.
  rewrite E2. cbn [bind negb String.eqb]. cbn.
  eexists _, _. split; [reflexivity | ].
  split; [split; [now apply py_ceil_pos | now apply py_ceil_le] | ].
  split; [split; [now apply py_ceil_pos | now apply py_ceil_le] | ].
  destruct (T Hw1 Hh1) as [Tw | Th]; [left | right]; now apply py_ceil_eq.
Qed.

Lemma get_scaled_size_crop_up (iw ih bw bh : Z) (f : string) :
  0 < iw -> 0 < ih -> 0 < bw -> 0 < bh -> f <> "fit" ->
  exists sw sh, get_scaled_size (iw, ih) (bw, bh) f true = Ok (sw, sh) /\
    bw <= sw /\ bh <= sh.
Proof.
  intros Hiw Hih Hbw Hbh Hf.
  pose proof (ratio_pos iw ih Hiw Hih) as Har.
  unfold get_scaled_size. cbn [fst snd].
  rewrite qdiv_ok by pos_nz. cbn [bind].
  destruct (enlarge_to_box_upscale (inject_Z iw / inject_Z ih) (inject_Z iw) (inject_Z ih) bw bh)
    as (w1 & h1 & E1 & Hw1 & Hh1 & R1 & P1); auto.
  { now apply inject_Z_pos. }
  { now apply ratio_eq. }
  rewrite E1. cbn [bind].
  destruct (shrink_to_box_Q (inject_Z iw / inject_Z ih) w1 h1 bw bh)
    as (w2 & h2 & E2 & Pw & Ph & Lw & Lh & _ & K); auto.
  rewrite E2. cbn [bind].
  apply String.eqb_neq in Hf. rewrite Hf. cbn [negb].
  destruct (enlarge_to_box_covers_Q (inject_Z iw / inject_Z ih) w2 h2 bw bh)
    as (w3 & h3 & E3 & Hw3 & Hh3); auto.
  rewrite E3. cbn [bind]. exists (py_ceil w3), (py_ceil h3).
  split; [reflexivity | split; now apply py_ceil_ge].
Qed.

Lemma shrink_Z_le_input (iw ih bw bh : Z) :
  0 < iw -> 0 < ih -> 0 < bw -> 0 < bh ->
  fst (shrink_Z iw ih bw bh) <= iw /\ snd (shrink_Z iw ih bw bh) <= ih.
Proof.
  intros Hiw Hih Hbw Hbh. pose proof (shrink_Z_spec iw ih bw bh Hiw Hih Hbw Hbh) as S.
  revert S. unfold shrink_Z.
  destruct (Z.ltb_spec bw iw) as [Lw | Lw]; cbv beta iota zeta.
  - assert (ih * bw / iw <= ih).
    { apply Z.div_le_upper_bound; nia. }
    destruct (Z.ltb_spec bh (Z.max (ih * bw / iw) 1)); cbn [fst snd]; lia.
  - destruct (Z.ltb_spec bh ih); cbn [fst snd]; [ | lia].
    assert (iw * bh / ih <= iw) by (apply Z.div_le_upper_bound; nia). lia.
Qed.

Lemma shrink_Z_small (iw ih bw bh : Z) :
  iw <= bw -> ih <= bh -> shrink_Z iw ih bw bh = (iw, ih).
Proof.
  intros Hw Hh. unfold shrink_Z.
  destruct (Z.ltb_spec bw iw); [lia | ]. destruct (Z.ltb_spec bh ih); [lia | ]. reflexivity.
Qed.

Lemma anchors_not_fit (f : string) : str_in f anchors = true -> f <> "fit".
Proof. intros H E. subst f. discriminate. Qed.

Lemma resize_ok `{pil : Pil} (im : image) (w h : Z) :
  1 <= w -> 1 <= h ->
  resize im (w, h) = Ok (mkImage (mode im) w h (resample_antialias im w h)).
Proof.
  intros Hw Hh. unfold resize. cbn [fst snd].
  replace ((w <? 1) || (h <? 1)) with false
    by (symmetry; apply orb_false_iff; split; apply Z.ltb_ge; lia).
  reflexivity.
Qed.

Lemma get_scaled_size_cover (iw ih bw bh : Z) (f : string) (up : bool) :
  0 < iw -> 0 < ih -> 0 < bw -> 0 < bh -> f <> "fit" ->
  exists sw sh, get_scaled_size (iw, ih) (bw, bh) f up = Ok (sw, sh) /\
    bw <= sw /\ bh <= sh.
Proof.
  intros. destruct up; [now apply get_scaled_size_crop_up | now apply get_scaled_size_crop].
Qed.

Lemma resize_processor_box `{pil : Pil} (im : image) (W H : Z) (f : string) (up : bool) :
  0 < W -> 0 < H ->
  resize_processor im {| r_width := Some W; r_height := Some H; fit := f; upscale := up |} =
    (let '(bw, bh) := (W, H) in
     sz <- get_scaled_size (img_width im, img_height im) (bw, bh) f up ;;
     im' <- resize im sz ;;
     if negb (String.eqb f "fit") then
       box <- get_crop_box im' bw bh f ;; crop im' box
     else Ok im').
Proof.
  intros HW HH. unfold resize_processor, resize_prep, or_Z. cbn [r_width r_height fit upscale].
  replace (W =? 0) with false by (symmetry; apply Z.eqb_neq; lia).
  replace (H =? 0) with false by (symmetry; apply Z.eqb_neq; lia).
  reflexivity.
Qed.

Lemma resize_processor_anchor `{pil : Pil} (im : image) (W H : Z) (f : string) (up : bool) :
  0 < img_width im -> 0 < img_height im -> 0 < W -> 0 < H ->
  str_in f anchors = true ->
  exists out,
    resize_processor im {| r_width := Some W; r_height := Some H; fit := f; upscale := up |}
      = Ok out /\ size out = (W, H) /\ mode out = mode im.
Proof.
  intros Hiw Hih HW HH Hf. rewrite resize_processor_box by assumption. cbv beta iota zeta.
  pose proof (anchors_not_fit f Hf) as Hnf.
  destruct (get_scaled_size_cover (img_width im) (img_height im) W H f up)
    as (sw & sh & E & Hw & Hh); auto.
  rewrite E. cbn [bind]. rewrite resize_ok by lia. cbn [bind].
  apply String.eqb_neq in Hnf. rewrite Hnf. cbn [negb].
  destruct (get_crop_box_supported (mkImage (mode im) sw sh (resample_antialias im sw sh)) W H f Hf)
    as (x1 & y1 & Eb). rewrite Eb. cbn [bind img_width img_height].
  rewrite (Z.min_l W sw), (Z.min_l H sh) by lia.
  unfold crop.
  replace ((x1 + W <? x1) || (y1 + H <? y1)) with false
    by (symmetry; apply orb_false_iff; split; apply Z.ltb_ge; lia).
  eexists. split; [reflexivity | ]. unfold size. cbn [img_width img_height mode].
  split; [f_equal; lia | reflexivity].
Qed.

(** C3: dimension contract of the resize operator.  For a non-empty image
    and a box [(W, H)] of positive sides, in fit mode the result has its
    largest side at most [max(W, H)] and both of its sides lie within one
    pixel of the image's sides scaled by one common ratio [p / q]; with any
    anchor fit mode (['center'], ['crop'], ['fill'], ['top'], ['left'],
    ['right'] or ['bottom']) the result has exactly the size [(W, H)]. *)
Theorem C3_resize_dimension_contract `{pil : Pil} (im : image) (W H : Z) :
  0 < img_width im -> 0 < img_height im -> 0 < W -> 0 < H ->
  (exists out,
     resize_processor im {| r_width := Some W; r_height := Some H;
                            fit := "fit"; upscale := false |} = Ok out /\
     Z.max (img_width out) (img_height out) <= Z.max W H /\
     exists p q, 0 < p /\ 0 < q /\
       Z.abs (img_width out * q - p * img_width im) <= q /\
       Z.abs (img_height out * q - p * img_height im) <= q) /\
  (forall f, str_in f anchors = true ->
   exists out,
     resize_processor im {| r_width := Some W; r_height := Some H;
                            fit := f; upscale := false |} = Ok out /\
     size out = (W, H)).
Proof.
  intros Hiw Hih HW HH. split.
  2: { intros f Hf.
       destruct (resize_processor_anchor im W H f false Hiw Hih HW HH Hf)
         as (out & E & S & _).
       exists out. split; assumption. }
  unfold resize_processor, resize_prep, or_Z. cbn [r_width r_height fit upscale].
  replace (W =? 0) with false by (symmetry; apply Z.eqb_neq; lia).
  replace (H =? 0) with false by (symmetry; apply Z.eqb_neq; lia).
  change (size im) with (img_width im, img_height im).
  rewrite get_scaled_size_fit by lia.
  pose proof (shrink_Z_spec (img_width im) (img_height im) W H Hiw Hih HW HH) as S.
  destruct (shrink_Z (img_width im) (img_height im) W H) as [w h].
  destruct S as (Sw & Sh & Sa). cbn [bind]. unfold resize. cbn [fst snd].
  replace ((w <? 1) || (h <? 1)) with false
    by (symmetry; apply orb_false_iff; split; apply Z.ltb_ge; lia).
  cbn [bind]. eexists. split; [reflexivity | ]. cbn [img_width img_height].
  split; [lia | exact Sa].
Qed.

(** With an anchor fit mode, the resize processor yields an image of exactly
    the requested size, whether or not upscaling is enabled. *)
Theorem X_resize_anchor_exact `{pil : Pil} (im : image) (W H : Z) (f : string) (up : bool) :
  0 < img_width im -> 0 < img_height im -> 0 < W -> 0 < H ->
  str_in f anchors = true ->
  exists out,
    resize_processor im {| r_width := Some W; r_height := Some H; fit := f; upscale := up |}
      = Ok out /\ size out = (W, H) /\ mode out = mode im.
Proof. apply resize_processor_anchor. Qed.

(** A fit mode that is neither ["fit"] nor an anchor makes the resize
    processor raise [ValueError] (from [get_crop_box]), after resizing. *)
Theorem X_resize_unsupported_fit `{pil : Pil} (im : image) (W H : Z) (f : string) (up : bool) :
  0 < img_width im -> 0 < img_height im -> 0 < W -> 0 < H ->
  f <> "fit" -> str_in f anchors = false ->
  resize_processor im {| r_width := Some W; r_height := Some H; fit := f; upscale := up |}
    = Err ValueError.
Proof.
  intros Hiw Hih HW HH Hnf Hf. rewrite resize_processor_box by assumption. cbv beta iota zeta.
  destruct (get_scaled_size_cover (img_width im) (img_height im) W H f up)
    as (sw & sh & E & Hw & Hh); auto.
  rewrite E. cbn [bind]. rewrite resize_ok by lia. cbn [bind].
  apply String.eqb_neq in Hnf. rewrite Hnf. cbn [negb].
  rewrite get_crop_box_eq. unfold anchors, str_in in *. cbn [existsb] in *.
  destruct (String.eqb f "center"), (String.eqb f "crop"), (String.eqb f "fill"),
    (String.eqb f "top"), (String.eqb f "left"), (String.eqb f "right"), (String.eqb f "bottom");
    cbn in Hf; try discriminate; reflexivity.
Qed.

(** In fit mode with upscaling, the result fits the box and touches it:
    one of its sides equals the box's side. *)
Theorem X_resize_fit_upscale `{pil : Pil} (im : image) (W H : Z) :
  0 < img_width im -> 0 < img_height im -> 0 < W -> 0 < H ->
  exists out,
    resize_processor im {| r_width := Some W; r_height := Some H; fit := "fit"; upscale := true |}
      = Ok out /\ mode out = mode im /\
    1 <= img_width out <= W /\ 1 <= img_height out <= H /\
    (img_width out = W \/ img_height out = H).
Proof.
  intros Hiw Hih HW HH. rewrite resize_processor_box by assumption. cbv beta iota zeta.
  destruct (get_scaled_size_fit_up (img_width im) (img_height im) W H)
    as (sw & sh & E & Hw & Hh & T); auto.
  rewrite E. cbn [bind]. rewrite resize_ok by lia. cbn [bind negb String.eqb].
  eexists. split; [reflexivity | ]. cbn [mode img_width img_height]. auto.
Qed.

(** In fit mode without upscaling, the result is no larger than the box nor
    than the source on either side, and a source that already fits the box
    keeps its size. *)
Theorem X_resize_fit_no_enlarge `{pil : Pil} (im : image) (W H : Z) :
  0 < img_width im -> 0 < img_height im -> 0 < W -> 0 < H ->
  exists out,
    resize_processor im {| r_width := Some W; r_height := Some H; fit := "fit"; upscale := false |}
      = Ok out /\ mode out = mode im /\
    1 <= img_width out <= Z.min W (img_width im) /\
    1 <= img_height out <= Z.min H (img_height im) /\
    (img_width im <= W -> img_height im <= H -> size out = size im).
Proof.
  intros Hiw Hih HW HH. rewrite resize_processor_box by assumption. cbv beta iota zeta.
  rewrite get_scaled_size_fit by assumption.
  pose proof (shrink_Z_spec (img_width im) (img_height im) W H Hiw Hih HW HH) as S.
  pose proof (shrink_Z_le_input (img_width im) (img_height im) W H Hiw Hih HW HH) as L.
  pose proof (shrink_Z_small (img_width im) (img_height im) W H) as Sm.
  destruct (shrink_Z (img_width im) (img_height im) W H) as [w h].
  destruct S as (Sw & Sh & _). cbn [fst snd] in L.
  cbn [bind]. rewrite resize_ok by lia. cbn [bind negb String.eqb].
  eexists. split; [reflexivity | ]. cbn [mode img_width img_height].
  split; [reflexivity | ]. split; [lia | ]. split; [lia | ].
  intros Hw Hh. specialize (Sm Hw Hh). injection Sm as -> ->. reflexivity.
Qed.

Lemma or_Z_pos (a : option Z) (b : Z) :
  (forall z, a = Some z -> 0 <= z) -> 0 < b -> 0 < or_Z a b.
Proof.
  intros Ha Hb. unfold or_Z. destruct a as [z | ]; [ | exact Hb].
  specialize (Ha z eq_refl). destruct (Z.eqb_spec z 0); lia.
Qed.

(** A recipe with neither flip, rotation nor crop, with a target width or
    height and an anchor fit mode, gives an image of the target size, where
    a missing side is the source's. *)
Theorem X_engine_anchor_size `{pil : Pil} (r : Recipe.t) (im : image) :
  Recipe.flip r = "" -> Recipe.rotate r = None -> Recipe.crop r = None ->
  0 < img_width im -> 0 < img_height im ->
  (forall w, Recipe.width r = Some w -> 0 <= w) ->
  (forall h, Recipe.height r = Some h -> 0 <= h) ->
  opt_Z_truthy (Recipe.width r) || opt_Z_truthy (Recipe.height r) = true ->
  str_in (Recipe.fit r) anchors = true ->
  exists out, engine_process r im = Ok out /\ mode out = mode im /\
    size out = (or_Z (Recipe.width r) (img_width im), or_Z (Recipe.height r) (img_height im)).
Proof.
  intros Hf Hr Hc Hiw Hih Hw Hh Ht Ha. unfold engine_process.
  rewrite Hf, Hr, Hc. cbn [str_truthy negb String.eqb bind]. rewrite Ht.
  destruct (resize_processor_anchor im (or_Z (Recipe.width r) (img_width im))
              (or_Z (Recipe.height r) (img_height im)) (Recipe.fit r) (Recipe.upscale r))
    as (out & E & S & M); auto using or_Z_pos.
  exists out. auto.
Qed.

(** ** Instances of the claims on concrete inputs *)

Lemma C3_resize_dimension_contract_witness :
  0 < img_width im_200x100 /\ 0 < img_height im_200x100 /\
  str_in "bottom" anchors = true /\
  exists out,
    resize_processor im_200x100 {| r_width := Some 50; r_height := Some 50;
                                   fit := "bottom"; upscale := false |} = Ok out /\
    size out = (50, 50).
Proof.
  split; [reflexivity | ]. split; [reflexivity | ]. split; [reflexivity | ].
  exact (proj2 (C3_resize_dimension_contract im_200x100 50 50
                  eq_refl eq_refl eq_refl eq_refl) "bottom" eq_refl).
Defined.

Lemma C5_identity_laws_witness :
  well_formed im_2x1_L /\
  crop_processor im_2x1_L
    {| crop_box := Some (PyTuple [Some 0%Q; Some 0%Q; Some 0%Q; Some 0%Q]);
       crop_percent := true |} = Ok im_2x1_L.
Proof.
  assert (Hwf : well_formed im_2x1_L).
  { unfold well_formed. cbn. split; [lia | ]. split; [lia | ].
    split; [reflexivity | ]. repeat constructor. }
  split; [exact Hwf | ].
  exact (proj2 (proj2 (C5_identity_laws im_2x1_L true true None "" true)) Hwf).
Defined.

Lemma C8_jpeg_mode_normalisation_witness :
  Recipe.file_type (c1_recipe None false) = "jpeg" /\
  ~ In (mode im_2x1_L) ["RGB"; "RGBA"] /\
  mode (art_image (engine_save (c1_recipe None false) im_2x1_L)) = "RGB".
Proof.
  assert (Hm : ~ In (mode im_2x1_L) ["RGB"; "RGBA"]).
  { cbn. intros [E | [E | []]]; discriminate. }
  split; [reflexivity | ]. split; [exact Hm | ].
  exact (proj2 (proj1 (C8_jpeg_mode_normalisation (c1_recipe None false) im_2x1_L)
                  eq_refl Hm)).
Defined.

Lemma C10_fast_path_only_four_angles_witness :
  (-90) mod 90 = 0 /\ ~ In (-90) [0; 90; 180; 270] /\
  rotate_processor im_200x100
    {| degrees := -90; extend := true; color := None;
       preserve_transparency := true; crop_mode := "aspect_ratio" |}
  = Err AttributeError.
Proof.
  assert (Hn : ~ In (-90) [0; 90; 180; 270]) by (cbn; lia).
  split; [reflexivity | ]. split; [exact Hn | ].
  exact (C10_fast_path_only_four_angles im_200x100
           {| degrees := -90; extend := true; color := None;
              preserve_transparency := true; crop_mode := "aspect_ratio" |}
           eq_refl Hn).
Defined.

(** ** Instances of the further properties on concrete inputs *)

Lemma im_2x1_L_well_formed : well_formed im_2x1_L.
Proof.
  unfold well_formed. cbn. split; [lia | ]. split; [lia | ].
  split; [reflexivity | ]. repeat constructor.
Qed.

Definition rotate_by (d : Z) (col : option (list Z)) (pt : bool) (cm : string)
  : rotate_options :=
  {| degrees := d; extend := true; color := col; preserve_transparency := pt;
     crop_mode := cm |}.

Definition plain_recipe (w h : option Z) (f : string) : Recipe.t :=
  {| Recipe.flip := ""; Recipe.rotate := None; Recipe.rotate_crop := "";
     Recipe.rotate_color := None; Recipe.crop := None;
     Recipe.width := w; Recipe.height := h; Recipe.upscale := false;
     Recipe.fit := f; Recipe.file_type := "png"; Recipe.quality := None |}.

Lemma X_flip_involutive_witness :
  flip_processor (flip_processor im_2x1_L {| flip := "h" |}) {| flip := "h" |} = im_2x1_L.
Proof. exact (X_flip_involutive im_2x1_L {| flip := "h" |} im_2x1_L_well_formed). Defined.

Lemma X_rotate_round_trip_witness :
  (r <- rotate_processor im_2x1_L (rotate_by 90 None true "") ;;
   rotate_processor r (rotate_by 270 None true "")) = Ok im_2x1_L.
Proof.
  apply X_rotate_round_trip; [exact im_2x1_L_well_formed | now left].
Defined.

Lemma X_get_crop_box_inside_witness :
  get_crop_box im_200x100 50 150 "bottom" = Ok (75, 0, 125, 100) /\
  0 <= 75 <= 125 /\ 125 <= img_width im_200x100 /\
  0 <= 0 <= 100 /\ 100 <= img_height im_200x100.
Proof.
  assert (E : get_crop_box im_200x100 50 150 "bottom" = Ok (75, 0, 125, 100))
    by reflexivity.
  split; [exact E | ].
  apply (X_get_crop_box_inside im_200x100 50 150 "bottom"); cbn; try lia. exact E.
Defined.

Lemma X_crop_pixel_box_witness :
  exists out,
    crop_processor im_200x100 (crop_opts PyList [10; 5; 20; 15] false) = Ok out /\
    mode out = mode im_200x100 /\
    size out = (img_width im_200x100 - 20 - 10, img_height im_200x100 - 15 - 5) /\
    forall x y, 0 <= x < img_width im_200x100 - 20 - 10 ->
      0 <= y < img_height im_200x100 - 15 - 5 ->
      get_pixel out x y = get_pixel im_200x100 (x + 10) (y + 5).
Proof. apply X_crop_pixel_box; cbn; lia. Defined.

Lemma X_crop_tuple_with_none_witness :
  crop_processor im_200x100
    {| crop_box := Some (PyTuple [Some 0%Q; None; Some 0%Q; Some 0%Q]);
       crop_percent := false |} = Err TypeError.
Proof. apply X_crop_tuple_with_none. reflexivity. Defined.

Lemma X_crop_no_box_identity_witness :
  crop_processor im_2x1_L {| crop_box := Some (PyTuple []); crop_percent := true |}
  = Ok im_2x1_L.
Proof.
  apply X_crop_no_box_identity; [exact im_2x1_L_well_formed | ]. cbn. auto.
Defined.

Lemma X_crop_short_box_witness :
  crop_processor im_200x100
    {| crop_box := Some (PyList [Some 1%Q; Some 2%Q]); crop_percent := false |}
  = Err IndexError.
Proof. apply X_crop_short_box. cbn. lia. Defined.

Lemma X_rotate_color_mode_witness :
  exists out,
    rotate_processor im_2x1_L (rotate_by 45 (Some [0; 0; 0; 128]) true "") = Ok out /\
    mode out = "RGBA".
Proof.
  destruct (rotate_processor im_2x1_L (rotate_by 45 (Some [0; 0; 0; 128]) true ""))
    as [out | e] eqn:E; [ | discriminate E].
  exists out. split; [reflexivity | ].
  apply (@X_rotate_color_mode blank_pil im_2x1_L out (rotate_by 45 (Some [0; 0; 0; 128]) true "")
           [0; 0; 0; 128] (fun _ _ _ => eq_refl)).
  - cbn. lia.
  - reflexivity.
  - discriminate.
  - exact E.
Defined.

Lemma X_rotate_crop_unknown_mode_witness :
  rotate_crop_processor im_200x100 (rotate_by 45 None true "smallest") = Err AttributeError.
Proof.
  apply X_rotate_crop_unknown_mode; cbn; [lia | ].
  intros [E | [E | []]]; discriminate.
Defined.

Lemma X_resize_zero_height_witness :
  resize_processor (mkImage "RGB" 5 0 []) resize_defaults = Err ZeroDivisionError.
Proof. apply X_resize_zero_height. reflexivity. Defined.

Lemma X_resize_anchor_exact_witness :
  exists out,
    resize_processor im_200x100
      {| r_width := Some 30; r_height := Some 90; fit := "left"; upscale := true |}
      = Ok out /\ size out = (30, 90) /\ mode out = mode im_200x100.
Proof. apply X_resize_anchor_exact; reflexivity. Defined.

Lemma X_resize_unsupported_fit_witness :
  resize_processor im_200x100
    {| r_width := Some 30; r_height := Some 90; fit := "middle"; upscale := false |}
  = Err ValueError.
Proof. apply X_resize_unsupported_fit; try reflexivity. discriminate. Defined.

Lemma X_resize_fit_upscale_witness :
  exists out,
    resize_processor im_200x100
      {| r_width := Some 400; r_height := Some 400; fit := "fit"; upscale := true |}
      = Ok out /\ mode out = mode im_200x100 /\
    1 <= img_width out <= 400 /\ 1 <= img_height out <= 400 /\
    (img_width out = 400 \/ img_height out = 400).
Proof. apply X_resize_fit_upscale; reflexivity. Defined.

Lemma X_resize_fit_no_enlarge_witness :
  exists out,
    resize_processor im_200x100
      {| r_width := Some 400; r_height := Some 400; fit := "fit"; upscale := false |}
      = Ok out /\ mode out = mode im_200x100 /\
    1 <= img_width out <= Z.min 400 (img_width im_200x100) /\
    1 <= img_height out <= Z.min 400 (img_height im_200x100) /\
    (img_width im_200x100 <= 400 -> img_height im_200x100 <= 400 ->
     size out = size im_200x100).
Proof. apply X_resize_fit_no_enlarge; reflexivity. Defined.

Lemma X_engine_anchor_size_witness :
  exists out, engine_process (plain_recipe (Some 50) None "top") im_200x100 = Ok out /\
    mode out = mode im_200x100 /\ size out = (50, 100).
Proof.
  apply (X_engine_anchor_size (plain_recipe (Some 50) None "top") im_200x100);
    try reflexivity.
  - intros w E. injection E as <-. lia.
  - intros h E. discriminate E.
Defined.
